(** * pg-inventory: the PostgreSQL schema inventory of [doc_gen.py]

    A shallow embedding of [connect_and_fetch], [save_results] and
    [generate_doc], and the properties of the inventory pipeline that the
    design document states about them.

    Python values are embedded as follows.
    - [str] is [string]: the UTF-8 bytes of the text.  Every string operation
      of the script (concatenation, [join], the JSON escaping of ASCII
      characters, the write to a UTF-8 file) commutes with that encoding.
    - [int] is [Z].
    - An instance of [Exception] is a record of its class name and of
      [str(e)]; nothing the script does looks further into an exception.
    - The database servers, the clock and the file system are outside the
      script.  They are an environment [Env] (what a server answers at a
      given moment, which operation fails) and a [Process] state that the
      code threads: the connections opened and closed, the log, the console
      and the files. *)

From Stdlib Require Import ZArith String Ascii List DecimalString.
From stdpp Require Import gmap strings list.

Local Open Scope Z_scope.

(** ** Text *)

Module Text.

(** The line feed and the double quote, which a string literal cannot
    hold. *)
Definition nl : string := String (ascii_of_nat 10) "".
Definition dq : string := String (ascii_of_nat 34) "".

(** [sep.join(l)] *)
Definition join (sep : string) (l : list string) : string :=
  String.concat sep l.

(** [str(n)] for an [int]. *)
Definition str_int (n : Z) : string :=
  NilZero.string_of_int (Z.to_int n).

(** The concatenation of the chunks written to a file. *)
Definition cat (l : list string) : string :=
  fold_right String.append "" l.

(** A literal in which every apostrophe stands for a double quote. *)
Fixpoint quoted (s : string) : string :=
  match s with
  | EmptyString => EmptyString
  | String c s' =>
      String (if Ascii.eqb c "'"%char then ascii_of_nat 34 else c)
             (quoted s')
  end.

End Text.

Import Text.

(** ** Config and models *)

Record ServerConfig := {
  host : string;
  port : Z;
  username : string;
  password : string
}.

(** A row of the columns query, a [Dict[str, Any]] whose keys are, in this
    order, the four selected columns; [column_default] is [None] for SQL
    NULL. *)
Record Column := {
  column_name : string;
  data_type : string;
  is_nullable : string;
  column_default : option string
}.

Record TableMetadata := {
  server : string;
  database : string;
  schema : string;
  table : string;
  postgres_version : string;
  extensions : list string;
  rowcount : Z;
  primary_keys : list string;
  columns : list Column;
  indexes : list string;
  foreign_keys : list string
}.

(** ** Exceptions and results *)

(** An instance of a subclass of Python's [Exception]. *)
Record Exception := {
  exc_class : string;
  exc_str : string          (* [str(e)], what an f-string prints for [e] *)
}.

Inductive Result (A : Type) : Type :=
| Ok (a : A)
| Raise (e : Exception).
Arguments Ok {A} a.
Arguments Raise {A} e.

(** ** The catalog of one database *)

(** The relations that the queries of the script read, each in the order
    in which the engine scans it.  Only the attributes that a query selects
    or filters on are kept. *)

Record PgClass := {
  relnamespace : string;     (* the schema the relation lives in *)
  relname : string;
  reltuples : Z              (* already cast by [reltuples::BIGINT] *)
}.

Record ColumnsRow := {       (* information_schema.columns *)
  c_table_schema : string;
  c_table_name : string;
  c_column : Column
}.

Record TableConstraint := {  (* information_schema.table_constraints *)
  tc_constraint_name : string;
  tc_table_schema : string;
  tc_table_name : string;
  tc_constraint_type : string
}.

Record KeyColumnUsage := {   (* information_schema.key_column_usage *)
  kcu_constraint_name : string;
  kcu_column_name : string
}.

Record PgIndex := {          (* pg_indexes *)
  schemaname : string;
  tablename : string;
  indexdef : string
}.

Record PgConstraint := {     (* pg_constraint *)
  conname : string;
  connamespace : Z;
  contype : string;
  conrelid : Z;
  constraintdef : string     (* [pg_get_constraintdef(c.oid)] *)
}.

Record Database := {
  version : string;                               (* [version()] *)
  pg_database : list (string * bool);             (* datname, datistemplate *)
  pg_extension : list string;                     (* extname *)
  information_schema_tables : list (string * string);
                                                  (* table_schema, table_name *)
  pg_class : list PgClass;
  information_schema_columns : list ColumnsRow;
  table_constraints : list TableConstraint;
  key_column_usage : list KeyColumnUsage;
  pg_indexes : list PgIndex;
  pg_constraint : list PgConstraint;
  pg_namespace : list Z;                          (* oid *)
  regclass : string -> Result Z
    (* the cast [text::regclass]: the oid of the relation that the text
       names, or the error of the engine when it names none *)
}.

(** ** The queries

    Each function is the result set of one [execute] of the script on a
    catalog, rows in scan order.  A query that the engine rejects raises. *)

Module Query.

(** [SELECT datname FROM pg_database WHERE datistemplate = false;] *)
Definition databases (d : Database) : Result (list string) :=
  Ok (map fst (List.filter (fun r => negb (snd r)) (pg_database d))).

(** [SELECT version();] *)
Definition server_version (d : Database) : Result (list string) :=
  Ok [version d].

(** [SELECT extname FROM pg_extension;] *)
Definition extnames (d : Database) : Result (list string) :=
  Ok (pg_extension d).

(** [SELECT table_schema, table_name FROM information_schema.tables
     WHERE table_schema NOT IN ('pg_catalog', 'information_schema');] *)
Definition tables (d : Database) : Result (list (string * string)) :=
  Ok (List.filter (fun r => negb (String.eqb (fst r) "pg_catalog"
                             || String.eqb (fst r) "information_schema"))
             (information_schema_tables d)).

(** [SELECT reltuples::BIGINT AS estimate FROM pg_class
     WHERE relname = %s;] with [(table,)] *)
Definition estimate (table : string) (d : Database) : Result (list Z) :=
  Ok (map reltuples
          (List.filter (fun r => String.eqb (relname r) table) (pg_class d))).

(** [SELECT column_name, data_type, is_nullable, column_default
     FROM information_schema.columns
     WHERE table_schema = %s AND table_name = %s;] *)
Definition column_rows (schema table : string) (d : Database)
  : Result (list Column) :=
  Ok (map c_column
          (List.filter (fun r => String.eqb (c_table_schema r) schema
                            && String.eqb (c_table_name r) table)
                  (information_schema_columns d))).

(** [SELECT kcu.column_name
     FROM information_schema.table_constraints tc
     JOIN information_schema.key_column_usage kcu
     ON tc.constraint_name = kcu.constraint_name
     WHERE tc.table_schema = %s AND tc.table_name = %s
       AND tc.constraint_type = 'PRIMARY KEY';] *)
Definition primary_key_columns (schema table : string) (d : Database)
  : Result (list string) :=
  Ok (flat_map
        (fun tc =>
           if String.eqb (tc_table_schema tc) schema
              && String.eqb (tc_table_name tc) table
              && String.eqb (tc_constraint_type tc) "PRIMARY KEY"
           then map kcu_column_name
                    (List.filter (fun kcu => String.eqb (tc_constraint_name tc)
                                                   (kcu_constraint_name kcu))
                            (key_column_usage d))
           else [])
        (table_constraints d)).

(** [SELECT indexdef FROM pg_indexes
     WHERE schemaname = %s AND tablename = %s;] *)
Definition indexdefs (schema table : string) (d : Database)
  : Result (list string) :=
  Ok (map indexdef
          (List.filter (fun r => String.eqb (schemaname r) schema
                            && String.eqb (tablename r) table)
                  (pg_indexes d))).

(** [SELECT conname, pg_get_constraintdef(c.oid) as definition
     FROM pg_constraint c
     JOIN pg_namespace n ON n.oid = c.connamespace
     WHERE contype = 'f' AND conrelid = %s::regclass;]
    with the one parameter [qualified]. *)
Definition foreign_key_rows (qualified : string) (d : Database)
  : Result (list (string * string)) :=
  match regclass d qualified with
  | Raise e => Raise e
  | Ok oid =>
      Ok (flat_map
            (fun c =>
               if String.eqb (contype c) "f" && Z.eqb (conrelid c) oid
               then map (fun _ => (conname c, constraintdef c))
                        (List.filter (fun n => Z.eqb n (connamespace c))
                                (pg_namespace d))
               else [])
            (pg_constraint d))
  end.

End Query.

(** ** The environment and the process *)

(** A [pathlib.Path] of a POSIX system: its parts.  [output_dir / name]
    adds one.  The first part of an absolute path is its root, [/] or
    [//]; every other part is the name of a file or a directory (not [..],
    which the model does not resolve). *)
Abbreviation Path := (list string).

Inductive Node :=
| File (content : string)
| Dir.

(** What is outside the script, as a function of the moment [t] (the number
    of operations the process has issued before).
    - [accepts s dbname t]: how the server answers [psycopg2.connect] with
      the credentials [s] and [dbname]: [None] when it accepts, the
      exception when it does not (host unreachable, authentication refused,
      no such database).
    - [catalog s dbname t]: the catalog of that database, as a statement
      sent at [t] sees it.
    - [fault t]: the exception, if any, that the operation issued at [t]
      dies of whatever its arguments (network loss, permission denied, disk
      full); otherwise the operation takes its course.
    - [strftime_now t]: [datetime.now().strftime("%Y%m%d_%H%M%S")].
    - [completion n]: the order in which [n] submitted futures complete,
      when it names each of the futures [0] to [n - 1] once.
    - [markup_error text]: what the console of the [rich] library makes of
      a text, which it reads as markup: [None] when the text renders, the
      [MarkupError] when it does not (a closing tag such as [[/x]] that
      matches no open tag).  The library is not part of the script; its
      verdict is taken as given. *)
Record Env := {
  accepts : ServerConfig -> string -> nat -> option Exception;
  catalog : ServerConfig -> string -> nat -> Database;
  fault : nat -> option Exception;
  strftime_now : nat -> string;
  completion : nat -> list nat;
  markup_error : string -> option Exception
}.

Record Connection := {
  conn_id : nat;
  conn_server : ServerConfig;
  conn_dbname : string
}.

(** The state of the running process.
    - [clock]: the operations issued so far.
    - [opened]: every connection [psycopg2.connect] has returned.
    - [closed]: the [conn_id] of every connection [close()] was called on.
    - [logged]: the messages given to [logging.error].
    - [console]: the texts given to [console.print].
    - [files]: the file system. *)
Record Process := {
  clock : nat;
  opened : list Connection;
  closed : list nat;
  logged : list string;
  console : list string;
  files : gmap Path Node
}.

Definition tick (h : Process) : Process :=
  {| clock := S (clock h); opened := opened h; closed := closed h;
     logged := logged h; console := console h; files := files h |}.

Definition add_opened (c : Connection) (h : Process) : Process :=
  {| clock := clock h; opened := opened h ++ [c]; closed := closed h;
     logged := logged h; console := console h; files := files h |}.

Definition add_closed (i : nat) (h : Process) : Process :=
  {| clock := clock h; opened := opened h; closed := closed h ++ [i];
     logged := logged h; console := console h; files := files h |}.

Definition add_logged (msg : string) (h : Process) : Process :=
  {| clock := clock h; opened := opened h; closed := closed h;
     logged := logged h ++ [msg]; console := console h; files := files h |}.

Definition add_console (msg : string) (h : Process) : Process :=
  {| clock := clock h; opened := opened h; closed := closed h;
     logged := logged h; console := console h ++ [msg]; files := files h |}.

Definition set_files (fs : gmap Path Node) (h : Process) : Process :=
  {| clock := clock h; opened := opened h; closed := closed h;
     logged := logged h; console := console h; files := fs |}.

(** ** Computations that may raise *)

(** A computation over a state [S]: it ends with a value or with a raised
    exception, and in both cases with the state it has reached. *)
Definition M (S A : Type) : Type := S -> Result A * S.

Definition ret {S A} (a : A) : M S A := fun s => (Ok a, s).

Definition raise {S A} (e : Exception) : M S A := fun s => (Raise e, s).

Definition bind {S A B} (m : M S A) (k : A -> M S B) : M S B :=
  fun s =>
    match m s with
    | (Ok a, s') => k a s'
    | (Raise e, s') => (Raise e, s')
    end.

Notation "'let!' x ':=' m 'in' k" := (bind m (fun x => k))
  (at level 10, x pattern, m at level 100, k at level 200).
Notation "'run!' m 'in' k" := (bind m (fun _ => k))
  (at level 10, m at level 100, k at level 200).

(** [for x in l: body(x)] *)
Fixpoint for_each {S A} (l : list A) (body : A -> M S unit) : M S unit :=
  match l with
  | [] => ret tt
  | x :: l' => run! body x in for_each l' body
  end.

(** [row[key]] for the row that [fetchone()] returned: a [TypeError] when
    it returned [None]. *)
Definition subscript {S A} (row : option A) : M S A :=
  match row with
  | Some a => ret a
  | None => raise {| exc_class := "TypeError";
                     exc_str := "'NoneType' object is not subscriptable" |}
  end.

(** The activation of [connect_and_fetch]: its list [metadata], which
    outlives an exception raised in the [try] block, and the process. *)
Record Frame := {
  metadata : list TableMetadata;
  proc : Process
}.

Definition new_frame (h : Process) : Frame :=
  {| metadata := []; proc := h |}.

(** A computation of the process, run inside an activation. *)
Definition in_frame {A} (m : M Process A) : M Frame A :=
  fun st =>
    let (r, h) := m (proc st) in
    (r, {| metadata := metadata st; proc := h |}).

(** [metadata.append(r)] *)
Definition append (r : TableMetadata) : M Frame unit :=
  fun st => (Ok tt, {| metadata := metadata st ++ [r]; proc := proc st |}).

(** [f"{server.host}:{server.port}"] *)
Definition server_name (s : ServerConfig) : string :=
  host s +:+ ":" +:+ str_int (port s).

(** The rows that an [execute] left in the cursor. *)
Definition fetchall {R} (rows : list R) : list R := rows.
Definition fetchone {R} (rows : list R) : option R := head rows.

Section Script.

Variable env : Env.

(** ** Operations on the outside world *)

(** One operation: it is issued at the moment [clock h], the clock
    advances, and the operation either dies of the fault planned for that
    moment or takes its course [act]. *)
Definition operation {A} (act : nat -> M Process A) : M Process A :=
  fun h =>
    match fault env (clock h) with
    | Some e => (Raise e, tick h)
    | None => act (clock h) (tick h)
    end.

Definition already_closed : Exception :=
  {| exc_class := "InterfaceError";
     exc_str := "connection already closed" |}.

(** [psycopg2.connect(host=..., port=..., user=..., password=...,
    dbname=dbname)] *)
Definition connect (s : ServerConfig) (dbname : string)
  : M Process Connection :=
  operation (fun t h =>
    match accepts env s dbname t with
    | Some e => (Raise e, h)
    | None =>
        let c := {| conn_id := length (opened h);
                    conn_server := s;
                    conn_dbname := dbname |} in
        (Ok c, add_opened c h)
    end).

(** [conn.cursor()]: a cursor is a handle on its connection. *)
Definition cursor (c : Connection) : M Process Connection :=
  fun h =>
    if bool_decide (conn_id c ∈ closed h)
    then (Raise already_closed, h)
    else (Ok c, h).

(** [cur.execute(query, params)]: the statement [q] is evaluated on the
    catalog as it is at that moment; the value is the result set that the
    following [fetchone()] or [fetchall()] reads. *)
Definition execute {R} (cur : Connection)
           (q : Database -> Result (list R)) : M Process (list R) :=
  operation (fun t h =>
    if bool_decide (conn_id cur ∈ closed h)
    then (Raise already_closed, h)
    else (q (catalog env (conn_server cur) (conn_dbname cur) t), h)).

(** [conn.close()] *)
Definition close (c : Connection) : M Process unit :=
  operation (fun _ h => (Ok tt, add_closed (conn_id c) h)).

(** [logging.error(msg)]: the logging module does not raise. *)
Definition logging_error (msg : string) (h : Process) : Process :=
  add_logged msg h.

(** ** [connect_and_fetch] *)

(** Lines 90 to 145: the body of [for t in tables]. *)
Definition table_body (server : ServerConfig) (db : string)
           (db_cur : Connection) (version : string)
           (extensions : list string) (t : string * string)
  : M Frame unit :=
  let schema := fst t in
  let table := snd t in
  (* Row count (estimate) *)
  let! rows := in_frame (execute db_cur (Query.estimate table)) in
  let! rowcount := subscript (fetchone rows) in
  (* Columns *)
  let! rows := in_frame (execute db_cur (Query.column_rows schema table)) in
  let columns := fetchall rows in
  (* Primary keys *)
  let! rows :=
    in_frame (execute db_cur (Query.primary_key_columns schema table)) in
  let primary_keys := fetchall rows in
  (* Indexes *)
  let! rows := in_frame (execute db_cur (Query.indexdefs schema table)) in
  let indexes := fetchall rows in
  (* Foreign keys *)
  let! rows :=
    in_frame (execute db_cur
                (Query.foreign_key_rows (schema +:+ "." +:+ table))) in
  let foreign_keys :=
    map (fun r => fst r +:+ ": " +:+ snd r) (fetchall rows) in
  append {| server := server_name server;
            database := db;
            schema := schema;
            table := table;
            postgres_version := version;
            extensions := extensions;
            rowcount := rowcount;
            primary_keys := primary_keys;
            columns := columns;
            indexes := indexes;
            foreign_keys := foreign_keys |}.

(** Lines 63 to 87: the connection to one database and the facts that are
    queried once for it: the cursor, the version, the extensions and the
    tables. *)
Definition open_database (server : ServerConfig) (db : string)
  : M Frame (Connection * Connection * string * list string
             * list (string * string)) :=
  let! db_conn := in_frame (connect server db) in
  let! db_cur := in_frame (cursor db_conn) in
  (* Get version *)
  let! rows := in_frame (execute db_cur Query.server_version) in
  let! version := subscript (fetchone rows) in
  (* Get extensions *)
  let! rows := in_frame (execute db_cur Query.extnames) in
  let extensions := fetchall rows in
  (* Get schemas & tables *)
  let! rows := in_frame (execute db_cur Query.tables) in
  let tables := fetchall rows in
  ret (db_conn, db_cur, version, extensions, tables).

(** Lines 62 to 147: the body of [for db in databases]. *)
Definition database_body (server : ServerConfig) (db : string)
  : M Frame unit :=
  let! (db_conn, db_cur, version, extensions, tables) :=
    open_database server db in
  run! for_each tables (table_body server db db_cur version extensions) in
  in_frame (close db_conn).

(** Lines 49 to 60: the administrative connection and the names of the
    databases that are not templates.  [conn.autocommit = True] changes
    nothing that the script observes. *)
Definition list_databases (server : ServerConfig)
  : M Frame (Connection * list string) :=
  let! conn := in_frame (connect server "postgres") in
  let! cur := in_frame (cursor conn) in
  let! rows := in_frame (execute cur Query.databases) in
  ret (conn, fetchall rows).

(** Lines 49 to 148: the [try] block. *)
Definition try_block (server : ServerConfig) : M Frame unit :=
  let! (conn, databases) := list_databases server in
  run! for_each databases (database_body server) in
  in_frame (close conn).

Definition scan_error_message (server : ServerConfig) (e : Exception)
  : string :=
  "Error scanning server " +:+ host server +:+ ":" +:+ str_int (port server)
  +:+ " → " +:+ exc_str e.

(** Lines 45 to 151.  [except Exception as e] takes every exception of
    the [try] block; [return metadata] follows in both cases. *)
Definition connect_and_fetch (server : ServerConfig)
  : M Process (list TableMetadata) :=
  fun h =>
    match try_block server (new_frame h) with
    | (Ok _, st) => (Ok (metadata st), proc st)
    | (Raise e, st) =>
        (Ok (metadata st),
         logging_error (scan_error_message server e) (proc st))
    end.

End Script.

(** ** JSON, as [model_dump_json] of pydantic writes it

    The compact form: no blank between tokens, the members of an object in
    the order of the fields of the model or of the keys of the dict. *)

Module Json.

Definition hex_digit (n : nat) : ascii :=
  nth n ["0"; "1"; "2"; "3"; "4"; "5"; "6"; "7"; "8"; "9";
         "a"; "b"; "c"; "d"; "e"; "f"]%char "0"%char.

(** The double quote, the backslash and the control characters are
    escaped; every other byte stands for itself. *)
Definition escape_char (c : ascii) : string :=
  let n := nat_of_ascii c in
  if (n =? 34)%nat then "\" +:+ dq
  else if (n =? 92)%nat then "\\"
  else if (n =? 8)%nat then "\b"
  else if (n =? 9)%nat then "\t"
  else if (n =? 10)%nat then "\n"
  else if (n =? 12)%nat then "\f"
  else if (n =? 13)%nat then "\r"
  else if (n <? 32)%nat
       then "\u00" +:+ String (hex_digit (n / 16))
                              (String (hex_digit (n mod 16)) "")
  else String c "".

Fixpoint escape (s : string) : string :=
  match s with
  | EmptyString => ""
  | String c s' => escape_char c +:+ escape s'
  end.

Definition str (s : string) : string := dq +:+ escape s +:+ dq.

Definition null : string := "null".

Definition int (n : Z) : string := str_int n.

Definition array (items : list string) : string :=
  "[" +:+ join "," items +:+ "]".

Definition object (members : list (string * string)) : string :=
  "{" +:+ join "," (map (fun m => str (fst m) +:+ ":" +:+ snd m) members)
  +:+ "}".

Definition optional_str (o : option string) : string :=
  match o with
  | None => null
  | Some s => str s
  end.

End Json.

(** A row of [columns]: a dict of four keys. *)
Definition column_json (col : Column) : string :=
  Json.object
    [("column_name", Json.str (column_name col));
     ("data_type", Json.str (data_type col));
     ("is_nullable", Json.str (is_nullable col));
     ("column_default", Json.optional_str (column_default col))].

(** [item.model_dump_json()] *)
Definition model_dump_json (item : TableMetadata) : string :=
  Json.object
    [("server", Json.str (server item));
     ("database", Json.str (database item));
     ("schema", Json.str (schema item));
     ("table", Json.str (table item));
     ("postgres_version", Json.str (postgres_version item));
     ("extensions", Json.array (map Json.str (extensions item)));
     ("rowcount", Json.int (rowcount item));
     ("primary_keys", Json.array (map Json.str (primary_keys item)));
     ("columns", Json.array (map column_json (columns item)));
     ("indexes", Json.array (map Json.str (indexes item)));
     ("foreign_keys", Json.array (map Json.str (foreign_keys item)))].

(** ** The file system *)

Module Fs.

Definition os_error (cls : string) (p : Path) : Exception :=
  {| exc_class := cls; exc_str := join "/" p |}.

(** The working directory [[]] is a directory. *)
Definition is_dir (fs : gmap Path Node) (p : Path) : bool :=
  match p with
  | [] => true
  | _ => match fs !! p with
         | Some Dir => true
         | _ => false
         end
  end.

(** [Path.mkdir(parents=True, exist_ok=True)], from the directory [done]
    down the components [todo]: what is missing is created, what is a
    directory is kept, a file in the way is an error. *)
Fixpoint mkdir_from (fs : gmap Path Node) (done : Path)
         (todo : list string) : Result (gmap Path Node) :=
  match todo with
  | [] => Ok fs
  | name :: todo' =>
      let p := done ++ [name] in
      match fs !! p with
      | None => mkdir_from (<[p := Dir]> fs) p todo'
      | Some Dir => mkdir_from fs p todo'
      | Some (File _) =>
          Raise (os_error (match todo' with
                           | [] => "FileExistsError"
                           | _ => "NotADirectoryError"
                           end) p)
      end
  end.

(** [open(p, "w", encoding="utf-8")]: the file is created or cut to
    nothing. *)
Definition create (fs : gmap Path Node) (p : Path)
  : Result (gmap Path Node) :=
  if is_dir fs (removelast p)
  then match fs !! p with
       | Some Dir => Raise (os_error "IsADirectoryError" p)
       | _ => Ok (<[p := File ""]> fs)
       end
  else Raise (os_error "FileNotFoundError" p).

(** [f.write(text)] on the file opened at [p]. *)
Definition extend (fs : gmap Path Node) (p : Path) (text : string)
  : Result (gmap Path Node) :=
  match fs !! p with
  | Some (File content) => Ok (<[p := File (content +:+ text)]> fs)
  | _ => Raise (os_error "OSError" p)
  end.

End Fs.

(** Does [l] name each of the [n] futures, [0] to [n - 1], once? *)
Fixpoint distinct (l : list nat) : bool :=
  match l with
  | [] => true
  | i :: l' => negb (existsb (Nat.eqb i) l') && distinct l'
  end.

Definition is_ordering (n : nat) (l : list nat) : bool :=
  (length l =? n)%nat && forallb (fun i => (i <? n)%nat) l && distinct l.

Section Report.

Variable env : Env.

Definition fs_operation (change : gmap Path Node -> Result (gmap Path Node))
  : M Process unit :=
  operation env (fun _ h =>
    match change (files h) with
    | Ok fs => (Ok tt, set_files fs h)
    | Raise e => (Raise e, h)
    end).

(** [out_path.mkdir(parents=True, exist_ok=True)] *)
Definition mkdir (p : Path) : M Process unit :=
  fs_operation (fun fs => Fs.mkdir_from fs [] p).

(** [f.write(text)], written through at once. *)
Definition write (f : Path) (text : string) : M Process unit :=
  fs_operation (fun fs => Fs.extend fs f text).

(** [with open(p, "w", encoding="utf-8") as f: body]: the file is closed
    when the body ends, also when it raises. *)
Definition with_open_w {A} (p : Path) (body : Path -> M Process A)
  : M Process A :=
  fun h =>
    match fs_operation (fun fs => Fs.create fs p) h with
    | (Raise e, h1) => (Raise e, h1)
    | (Ok _, h1) =>
        let (r, h2) := body p h1 in
        match operation env (fun _ h => (Ok tt, h)) h2 with
        | (Ok _, h3) => (r, h3)
        | (Raise e, h3) => (Raise e, h3)
        end
    end.

(** [console.print(text)]: the text is markup; when it does not render,
    nothing is printed and the error of the library is raised. *)
Definition console_print (text : string) : M Process unit :=
  operation env (fun _ h =>
    match markup_error env text with
    | Some e => (Raise e, h)
    | None => (Ok tt, add_console text h)
    end).

(** [datetime.now().strftime("%Y%m%d_%H%M%S")] *)
Definition timestamp_now : M Process string :=
  fun h => (Ok (strftime_now env (clock h)), h).

(** [if l: body], for a list [l]. *)
Definition if_nonempty {A} (l : list A) (body : M Process unit)
  : M Process unit :=
  match l with
  | [] => ret tt
  | _ :: _ => body
  end.

(** [col['column_default'] or ''] *)
Definition default_or_empty (o : option string) : string :=
  match o with
  | None => ""
  | Some "" => ""
  | Some s => s
  end.

(** Lines 168 to 187: the writes of one item to the Markdown file. *)
Definition write_markdown (f : Path) (item : TableMetadata)
  : M Process unit :=
  run! write f ("## " +:+ server item +:+ " · " +:+ database item
                +:+ " · " +:+ schema item +:+ "." +:+ table item
                +:+ nl +:+ nl) in
  run! write f ("- PostgreSQL Version: " +:+ postgres_version item
                +:+ nl) in
  run! write f ("- Extensions: " +:+ join ", " (extensions item)
                +:+ nl) in
  run! write f ("- Rowcount: " +:+ str_int (rowcount item) +:+ nl) in
  run! if_nonempty (primary_keys item)
         (write f ("- Primary Key: " +:+ join ", " (primary_keys item)
                   +:+ nl)) in
  run! write f (nl +:+ "### Columns" +:+ nl +:+ nl) in
  run! write f ("| Name | Type | Nullable | Default |" +:+ nl) in
  run! write f ("|------|------|----------|---------|" +:+ nl) in
  run! for_each (columns item) (fun col =>
         write f ("| " +:+ column_name col +:+ " | " +:+ data_type col
                  +:+ " | " +:+ is_nullable col +:+ " | "
                  +:+ default_or_empty (column_default col)
                  +:+ " |" +:+ nl)) in
  run! if_nonempty (indexes item)
         (run! write f (nl +:+ "### Indexes" +:+ nl) in
          for_each (indexes item) (fun idx =>
            write f ("- " +:+ idx +:+ nl))) in
  run! if_nonempty (foreign_keys item)
         (run! write f (nl +:+ "### Foreign Keys" +:+ nl) in
          for_each (foreign_keys item) (fun fk =>
            write f ("- " +:+ fk +:+ nl))) in
  write f (nl +:+ "---" +:+ nl +:+ nl).

(** [str(path)]: the parts joined by [/], after the root when the path
    is absolute; [.] for the path with no part. *)
Definition str_path (p : Path) : string :=
  match p with
  | [] => "."
  | part :: rest =>
      if String.eqb part "/" || String.eqb part "//"
      then part +:+ join "/" rest
      else join "/" p
  end.

(** Lines 154 to 189. *)
Definition save_results (output_dir : Path) (metadata : list TableMetadata)
  : M Process unit :=
  let! timestamp := timestamp_now in
  let out_path := output_dir in
  run! mkdir out_path in
  (* JSONL *)
  run! with_open_w (out_path ++ ["postgres_inventory.jsonl"]) (fun f =>
         for_each metadata (fun item =>
           write f (model_dump_json item +:+ nl))) in
  (* Markdown *)
  run! with_open_w (out_path ++ ["postgres_inventory.md"]) (fun f =>
         for_each metadata (write_markdown f)) in
  console_print ("[green]✅ Results saved in " +:+ str_path out_path
                 +:+ "[/green]").

(** ** [generate_doc] *)

(** Lines 203 and 204: [for s in server_configs:
    all_metadata.extend(connect_and_fetch(s))]. *)
Fixpoint scan_in_turn (server_configs : list ServerConfig)
         (all_metadata : list TableMetadata)
  : M Process (list TableMetadata) :=
  match server_configs with
  | [] => ret all_metadata
  | s :: rest =>
      let! found := connect_and_fetch env s in
      scan_in_turn rest (all_metadata ++ found)
  end.

(** [as_completed(futures)] for [n] futures, by their indices in the
    order of submission: the order that the environment gives when it is
    an ordering of the futures, so that each future is waited for once;
    the order of submission otherwise. *)
Definition as_completed (n : nat) : list nat :=
  if is_ordering n (completion env n) then completion env n else seq 0 n.

(** Lines 195 to 204, on the configurations [server_configs] of line 194.
    The input of the model is the list of the [ServerConfig] values
    themselves: a dict that the model [ServerConfig] does not validate, for
    which line 194 raises before any scan, is not a value of that type.
    With [parallel], the scan of each worker is taken as one step, and the
    steps follow in the order in which the futures complete; scans that
    overlap in time are not told apart from scans in that order. *)
Definition collect (servers : list ServerConfig) (parallel : bool)
  : M Process (list TableMetadata) :=
  let server_configs := servers in
  if parallel
  then scan_in_turn
         (omap (fun i => server_configs !! i)
               (as_completed (length server_configs))) []
  else scan_in_turn server_configs [].

(** Lines 195 to 206, on the configurations of line 194 (see
    [collect]). *)
Definition generate_doc (servers : list ServerConfig) (output_dir : Path)
           (parallel : bool) : M Process unit :=
  let! all_metadata := collect servers parallel in
  save_results output_dir all_metadata.

End Report.

(** * What the design document states, as definitions *)

Module Spec.

(** The facts of a database are the same in any two records of it. *)
Definition denormalised (records : list TableMetadata) : Prop :=
  forall r1 r2,
    In r1 records -> In r2 records ->
    server r1 = server r2 -> database r1 = database r2 ->
    extensions r1 = extensions r2
    /\ postgres_version r1 = postgres_version r2.

(** A record of the database [db] that carries the version [v] and the
    extensions [x]. *)
Definition of_database (db v : string) (x : list string)
           (r : TableMetadata) : Prop :=
  database r = db /\ postgres_version r = v /\ extensions r = x.

(** [datname] is a key of [pg_database]: the relation has a unique index
    on it. *)
Definition datname_unique (env : Env) : Prop :=
  forall s dbname t,
    List.NoDup (map fst (pg_database (catalog env s dbname t))).

(** The scans of the servers one after the other, in the order of the
    list: what each has found, and the process after the last.  (A scan
    does not raise; the second case is never taken.) *)
Fixpoint scan_each (env : Env) (servers : list ServerConfig) (h : Process)
  : list (list TableMetadata) * Process :=
  match servers with
  | [] => ([], h)
  | s :: rest =>
      match connect_and_fetch env s h with
      | (Ok found, h1) =>
          let (others, h2) := scan_each env rest h1 in
          (found :: others, h2)
      | (Raise _, h1) => ([], h1)
      end
  end.

(** ** The Markdown section of one record

    The section, part by part as the design document lists them: the
    heading with the version, the extensions and the row count; the
    primary key, if any; the table of columns; the index definitions, if
    any; the foreign keys, if any; the separator. *)

Definition heading (item : TableMetadata) : string :=
  ("## " +:+ server item +:+ " · " +:+ database item +:+ " · "
   +:+ schema item +:+ "." +:+ table item +:+ nl +:+ nl)
  +:+ ("- PostgreSQL Version: " +:+ postgres_version item +:+ nl)
  +:+ ("- Extensions: " +:+ join ", " (extensions item) +:+ nl)
  +:+ ("- Rowcount: " +:+ str_int (rowcount item) +:+ nl).

Definition primary_key_line (item : TableMetadata) : string :=
  match primary_keys item with
  | [] => ""
  | _ :: _ => "- Primary Key: " +:+ join ", " (primary_keys item) +:+ nl
  end.

Definition columns_header : string :=
  (nl +:+ "### Columns" +:+ nl +:+ nl)
  +:+ ("| Name | Type | Nullable | Default |" +:+ nl)
  +:+ ("|------|------|----------|---------|" +:+ nl).

Definition column_row (col : Column) : string :=
  "| " +:+ column_name col +:+ " | " +:+ data_type col +:+ " | "
  +:+ is_nullable col +:+ " | "
  +:+ match column_default col with
      | None => ""
      | Some s => s
      end
  +:+ " |" +:+ nl.

Definition columns_table (item : TableMetadata) : string :=
  columns_header +:+ cat (map column_row (columns item)).

Definition bullet (s : string) : string := "- " +:+ s +:+ nl.

Definition indexes_section (item : TableMetadata) : string :=
  match indexes item with
  | [] => ""
  | _ :: _ => (nl +:+ "### Indexes" +:+ nl)
              +:+ cat (map bullet (indexes item))
  end.

Definition foreign_keys_section (item : TableMetadata) : string :=
  match foreign_keys item with
  | [] => ""
  | _ :: _ => (nl +:+ "### Foreign Keys" +:+ nl)
              +:+ cat (map bullet (foreign_keys item))
  end.

Definition separator : string := nl +:+ "---" +:+ nl +:+ nl.

Definition markdown_section (item : TableMetadata) : string :=
  heading item +:+ primary_key_line item +:+ columns_table item
  +:+ indexes_section item +:+ foreign_keys_section item +:+ separator.

(** ** The two files of a collection *)

Definition jsonl_text (records : list TableMetadata) : string :=
  cat (map (fun item => model_dump_json item +:+ nl) records).

Definition markdown_text (records : list TableMetadata) : string :=
  cat (map markdown_section records).

Definition jsonl_path (output_dir : Path) : Path :=
  output_dir ++ ["postgres_inventory.jsonl"].

Definition markdown_path (output_dir : Path) : Path :=
  output_dir ++ ["postgres_inventory.md"].

(** From [fs] to [fs'], outside the paths [touched], nothing has happened
    but the creation of directories. *)
Definition grown (touched : Path -> Prop) (fs fs' : gmap Path Node)
  : Prop :=
  forall p,
    touched p \/ fs' !! p = fs !! p
    \/ (fs !! p = None /\ fs' !! p = Some Dir).

(** When [m] returns, the file [f], if it was there, has gained [text]
    at its end. *)
Definition appends (f : Path) (m : M Process unit) (text : string) : Prop :=
  forall h h' content,
    m h = (Ok tt, h') ->
    files h !! f = Some (File content) ->
    files h' !! f = Some (File (content +:+ text)).

(** Whatever its outcome, [m] leaves the file system grown outside
    [touched]. *)
Definition touches_only {A} (touched : Path -> Prop) (m : M Process A)
  : Prop :=
  forall h r h', m h = (r, h') -> grown touched (files h) (files h').

(** ** Records that differ in null against empty defaults only *)

(** Two rows of [columns] that are the same but, possibly, for a default
    that is [None] in one and the empty string in the other. *)
Definition same_but_default (c c' : Column) : Prop :=
  column_name c = column_name c'
  /\ data_type c = data_type c'
  /\ is_nullable c = is_nullable c'
  /\ (column_default c = column_default c'
      \/ (column_default c = None /\ column_default c' = Some "")
      \/ (column_default c = Some "" /\ column_default c' = None)).

Definition same_but_defaults (r r' : TableMetadata) : Prop :=
  server r = server r'
  /\ database r = database r'
  /\ schema r = schema r'
  /\ table r = table r'
  /\ postgres_version r = postgres_version r'
  /\ extensions r = extensions r'
  /\ rowcount r = rowcount r'
  /\ primary_keys r = primary_keys r'
  /\ Forall2 same_but_default (columns r) (columns r')
  /\ indexes r = indexes r'
  /\ foreign_keys r = foreign_keys r'.

(** The text [s] is a part of the text [t]. *)
Definition occurs (s t : string) : Prop :=
  exists before after, t = before +:+ s +:+ after.

(** Two texts that agree up to a place where each has a character and
    the two characters differ. *)
Definition diverge (s s' : string) : Prop :=
  exists p a x b y,
    s = p +:+ String a x /\ s' = p +:+ String b y /\ a <> b.

(** The JSON of a row of [columns] up to its default, and the JSON of a
    record up to its columns and after them. *)
Definition column_json_before (c : Column) : string :=
  "{" +:+ (Json.str "column_name" +:+ ":" +:+ Json.str (column_name c))
  +:+ "," +:+ (Json.str "data_type" +:+ ":" +:+ Json.str (data_type c))
  +:+ "," +:+ (Json.str "is_nullable" +:+ ":" +:+ Json.str (is_nullable c))
  +:+ "," +:+ Json.str "column_default" +:+ ":".

Definition record_json_before (r : TableMetadata) : string :=
  "{" +:+ (Json.str "server" +:+ ":" +:+ Json.str (server r))
  +:+ "," +:+ (Json.str "database" +:+ ":" +:+ Json.str (database r))
  +:+ "," +:+ (Json.str "schema" +:+ ":" +:+ Json.str (schema r))
  +:+ "," +:+ (Json.str "table" +:+ ":" +:+ Json.str (table r))
  +:+ "," +:+ (Json.str "postgres_version" +:+ ":"
               +:+ Json.str (postgres_version r))
  +:+ "," +:+ (Json.str "extensions" +:+ ":"
               +:+ Json.array (map Json.str (extensions r)))
  +:+ "," +:+ (Json.str "rowcount" +:+ ":" +:+ Json.int (rowcount r))
  +:+ "," +:+ (Json.str "primary_keys" +:+ ":"
               +:+ Json.array (map Json.str (primary_keys r)))
  +:+ "," +:+ Json.str "columns" +:+ ":".

Definition record_json_after (r : TableMetadata) : string :=
  "," +:+ (Json.str "indexes" +:+ ":"
           +:+ Json.array (map Json.str (indexes r)))
  +:+ "," +:+ (Json.str "foreign_keys" +:+ ":"
               +:+ Json.array (map Json.str (foreign_keys r)))
  +:+ "}".

End Spec.

(** * Scenarios *)

Module Scenario.

(** A table as a scenario describes it; [catalog_of] spreads a list of
    them over the relations of the catalog. *)
Record TableSpec := {
  ts_schema : string;
  ts_name : string;
  ts_oid : Z;
  ts_estimate : Z;
  ts_columns : list Column;
  ts_primary_key : list string;
  ts_indexes : list string;
  ts_foreign_keys : list (string * string);   (* conname, definition *)
  ts_regclass : option Exception
    (* the error of the cast of [schema.name] to regclass, if it fails *)
}.

Definition undefined_table (name : string) : Exception :=
  {| exc_class := "UndefinedTable";
     exc_str := "relation " +:+ dq +:+ name +:+ dq +:+ " does not exist" |}.

Definition pkey_name (s : TableSpec) : string := ts_name s +:+ "_pkey".

Definition catalog_of (listing : list (string * bool))
           (extnames : list string) (specs : list TableSpec) : Database :=
  {| version := "PostgreSQL 15.2";
     pg_database := listing;
     pg_extension := extnames;
     information_schema_tables :=
       ("pg_catalog", "pg_class") :: ("information_schema", "tables")
       :: map (fun s => (ts_schema s, ts_name s)) specs;
     pg_class :=
       map (fun s => {| relnamespace := ts_schema s;
                        relname := ts_name s;
                        reltuples := ts_estimate s |}) specs;
     information_schema_columns :=
       flat_map (fun s =>
                   map (fun c => {| c_table_schema := ts_schema s;
                                    c_table_name := ts_name s;
                                    c_column := c |}) (ts_columns s))
                specs;
     table_constraints :=
       flat_map (fun s =>
                   match ts_primary_key s with
                   | [] => []
                   | _ => [{| tc_constraint_name := pkey_name s;
                              tc_table_schema := ts_schema s;
                              tc_table_name := ts_name s;
                              tc_constraint_type := "PRIMARY KEY" |}]
                   end) specs;
     key_column_usage :=
       flat_map (fun s =>
                   map (fun col => {| kcu_constraint_name := pkey_name s;
                                      kcu_column_name := col |})
                       (ts_primary_key s)) specs;
     pg_indexes :=
       flat_map (fun s =>
                   map (fun def => {| schemaname := ts_schema s;
                                      tablename := ts_name s;
                                      indexdef := def |}) (ts_indexes s))
                specs;
     pg_constraint :=
       flat_map (fun s =>
                   map (fun fk => {| conname := fst fk;
                                     connamespace := 2200;
                                     contype := "f";
                                     conrelid := ts_oid s;
                                     constraintdef := snd fk |})
                       (ts_foreign_keys s)) specs;
     pg_namespace := [11; 2200];
     regclass := fun qualified =>
       match head (List.filter
                     (fun s => String.eqb (ts_schema s +:+ "." +:+ ts_name s)
                                          qualified) specs) with
       | Some s => match ts_regclass s with
                   | None => Ok (ts_oid s)
                   | Some e => Raise e
                   end
       | None => Raise (undefined_table qualified)
       end |}.

Definition plain (schema name : string) (oid estimate : Z) : TableSpec :=
  {| ts_schema := schema; ts_name := name; ts_oid := oid;
     ts_estimate := estimate;
     ts_columns := [{| column_name := "id"; data_type := "integer";
                       is_nullable := "NO"; column_default := None |}];
     ts_primary_key := []; ts_indexes := []; ts_foreign_keys := [];
     ts_regclass := None |}.

(** The table created as ["Orders"], with its capital: the cast of the
    text [public.Orders] to regclass folds the name to lower case, finds no
    relation [public.orders] and fails. *)
Definition orders : TableSpec :=
  {| ts_schema := "public"; ts_name := "Orders"; ts_oid := 2;
     ts_estimate := 20; ts_columns := [];
     ts_primary_key := []; ts_indexes := []; ts_foreign_keys := [];
     ts_regclass := Some (undefined_table "public.orders") |}.

(** [public.users] with the columns [(id integer not null, name text
    null default NULL)], the primary key [id], no index, no foreign key
    and the estimate 42. *)
Definition users : TableSpec :=
  {| ts_schema := "public"; ts_name := "users"; ts_oid := 16384;
     ts_estimate := 42;
     ts_columns := [{| column_name := "id"; data_type := "integer";
                       is_nullable := "NO"; column_default := None |};
                    {| column_name := "name"; data_type := "text";
                       is_nullable := "YES"; column_default := None |}];
     ts_primary_key := ["id"]; ts_indexes := []; ts_foreign_keys := [];
     ts_regclass := None |}.

Definition the_server : ServerConfig :=
  {| host := "host"; port := 5432;
     username := "postgres"; password := "postgres" |}.

(** A process that has done nothing yet, in an empty directory. *)
Definition start : Process :=
  {| clock := 0; opened := []; closed := []; logged := [];
     console := []; files := ∅ |}.

(** A world that does not change and in which nothing fails but what
    [refused] and the catalogs say.  All that the scenarios print is the
    line of the report writer for the directory [output], which renders. *)
Definition still (refused : string -> option Exception)
           (catalogs : string -> Database) : Env :=
  {| accepts := fun _ dbname _ => refused dbname;
     catalog := fun _ dbname _ => catalogs dbname;
     fault := fun _ => None;
     strftime_now := fun _ => "20240101_120000";
     completion := fun n => seq 0 n;
     markup_error := fun _ => None |}.

Definition nothing_refused (dbname : string) : option Exception := None.

(** One server whose one database [mydb] holds the one table [users]. *)
Definition one_database (listing : list (string * bool)) : Env :=
  still nothing_refused
        (fun dbname =>
           if String.eqb dbname "mydb"
           then catalog_of listing ["pgcrypto"] [users]
           else catalog_of listing [] []).

Definition only_mydb : list (string * bool) :=
  [("template1", true); ("template0", true); ("mydb", false)].

Definition postgres_and_mydb : list (string * bool) :=
  [("template1", true); ("template0", true); ("postgres", false);
   ("mydb", false)].

Definition expected_line : string :=
  quoted "{'server':'host:5432','database':'mydb','schema':'public','table':'users','postgres_version':'PostgreSQL 15.2','extensions':['pgcrypto'],'rowcount':42,'primary_keys':['id'],'columns':[{'column_name':'id','data_type':'integer','is_nullable':'NO','column_default':null},{'column_name':'name','data_type':'text','is_nullable':'YES','column_default':null}],'indexes':[],'foreign_keys':[]}".

(** Two databases, [shop] and [crm]. *)
Definition shop_and_crm : list (string * bool) :=
  [("template0", true); ("shop", false); ("crm", false)].



(** The second table of [shop] is [Orders]; [crm] is in order. *)
Definition orders_unresolved : Env :=
  still nothing_refused
        (fun dbname =>
           if String.eqb dbname "shop"
           then catalog_of shop_and_crm []
                  [plain "public" "items" 1 10;
                   orders;
                   plain "public" "customers" 3 30]
           else catalog_of shop_and_crm [] [plain "public" "accounts" 4 40]).

(** Two schemas with a table [users] each. *)
Definition two_users : Env :=
  still nothing_refused
        (fun _ => catalog_of [("app", false)] ["plpgsql"]
                             [plain "public" "users" 1 42;
                              plain "audit" "users" 2 7]).

(** The record of [public.users] of the scenario [one_database]. *)
Definition users_record : TableMetadata :=
  {| server := "host:5432"; database := "mydb"; schema := "public";
     table := "users"; postgres_version := "PostgreSQL 15.2";
     extensions := ["pgcrypto"]; rowcount := 42;
     primary_keys := ["id"]; columns := ts_columns users;
     indexes := []; foreign_keys := [] |}.

(** A record with no primary key, no index and no foreign key. *)
Definition bare_record : TableMetadata :=
  {| server := "host:5432"; database := "mydb"; schema := "public";
     table := "events"; postgres_version := "PostgreSQL 15.2";
     extensions := []; rowcount := 0;
     primary_keys := []; columns := ts_columns users;
     indexes := []; foreign_keys := [] |}.

Definition report : Path := ["report.md"].

(** The process when [report] has just been opened for writing. *)
Definition report_opened : Process :=
  set_files {[ report := File "" ]} start.

Definition quiet : Env := still nothing_refused (fun _ => catalog_of [] [] []).

(** Two records that differ in the default of their one column only:
    null in the first, the empty string in the second. *)
Definition note_record (default : option string) : TableMetadata :=
  {| server := "host:5432"; database := "mydb"; schema := "public";
     table := "notes"; postgres_version := "PostgreSQL 15.2";
     extensions := []; rowcount := 3; primary_keys := [];
     columns := [{| column_name := "body"; data_type := "text";
                    is_nullable := "YES"; column_default := default |}];
     indexes := []; foreign_keys := [] |}.

End Scenario.

(** * Further notions *)

Module Effects.

(** Whatever its outcome, [m] takes a state to one that [R] relates to
    it. *)
Definition keeps {S A} (R : S -> S -> Prop) (m : M S A) : Prop :=
  forall s r s', m s = (r, s') -> R s s'.

(** From [h] to [h'] nothing was written: the files, the console and the
    log are the same. *)
Definition silent (h h' : Process) : Prop :=
  files h' = files h /\ console h' = console h /\ logged h' = logged h.

Definition frame_silent (st st' : Frame) : Prop :=
  silent (proc st) (proc st').

(** The schema and the name of the table of a record. *)
Definition key (r : TableMetadata) : string * string :=
  (schema r, table r).

(** The rows of [information_schema.tables] that the scan keeps. *)
Definition user_tables (d : Database) : list (string * string) :=
  List.filter (fun r => negb (String.eqb (fst r) "pg_catalog"
                               || String.eqb (fst r) "information_schema"))
              (information_schema_tables d).

(** Started with the file [f] open, [m] returns, and all it has done to
    the files and the console is to put [text] at the end of [f]. *)
Definition writes (f : Path) (m : M Process unit) (text : string) : Prop :=
  forall h content,
    files h !! f = Some (File content) ->
    exists h',
      m h = (Ok tt, h')
      /\ files h' = <[f := File (content +:+ text)]> (files h)
      /\ console h' = console h.

(** The names of the primary-key constraints of a table. *)
Definition primary_key_constraints (schema table : string) (d : Database)
  : list string :=
  map tc_constraint_name
      (List.filter
         (fun tc => String.eqb (tc_table_schema tc) schema
                    && String.eqb (tc_table_name tc) table
                    && String.eqb (tc_constraint_type tc) "PRIMARY KEY")
         (table_constraints d)).

(** The columns of the rows of [key_column_usage] that bear the name of a
    constraint. *)
Definition columns_of_constraint (name : string) (d : Database)
  : list string :=
  map kcu_column_name
      (List.filter (fun kcu => String.eqb name (kcu_constraint_name kcu))
                   (key_column_usage d)).

(** A record stands for a table that the catalog of its database has
    listed among the user tables, on the server that was scanned. *)
Definition listed (env : Env) (srv : ServerConfig) (rec : TableMetadata)
  : Prop :=
  server rec = server_name srv
  /\ exists t,
       In (key rec) (user_tables (catalog env srv (database rec) t)).

End Effects.

Module Cases.

(** A server on which every database is a template. *)
Definition only_templates : Env :=
  Scenario.still Scenario.nothing_refused
    (fun _ => Scenario.catalog_of [("template1", true); ("template0", true)]
                                  [] [Scenario.users]).

(** A record whose column default runs over two lines. *)
Definition two_line_default : TableMetadata :=
  Scenario.note_record (Some ("first" +:+ nl +:+ "second")).

(** The process in a directory where [output] is a regular file. *)
Definition output_is_a_file : Process :=
  set_files {[ ["output"] := File "notes" ]} Scenario.start.

(** A server that cannot be reached, beside the one of the scenarios. *)
Definition down_server : ServerConfig :=
  {| host := "down"; port := 5432;
     username := "postgres"; password := "postgres" |}.

Definition unreachable : Exception :=
  {| exc_class := "OperationalError";
     exc_str := "could not translate host name to address" |}.

Definition one_down : Env :=
  {| accepts := fun s _ _ =>
       if String.eqb (host s) "down" then Some unreachable else None;
     catalog := catalog Scenario.two_users;
     fault := fun _ => None;
     strftime_now := fun _ => "20240101_120000";
     completion := fun n => seq 0 n;
     markup_error := fun _ => None |}.

(** The tables [public.users] and [audit.users], each with a primary key
    whose constraint is named [users_pkey]: on [id] for the first, on [uid]
    for the second. *)
Definition keyed (schema column : string) (oid : Z) : Scenario.TableSpec :=
  {| Scenario.ts_schema := schema; Scenario.ts_name := "users";
     Scenario.ts_oid := oid; Scenario.ts_estimate := 1;
     Scenario.ts_columns := [{| column_name := column;
                                data_type := "integer";
                                is_nullable := "NO";
                                column_default := None |}];
     Scenario.ts_primary_key := [column]; Scenario.ts_indexes := [];
     Scenario.ts_foreign_keys := []; Scenario.ts_regclass := None |}.

Definition two_keys : Env :=
  Scenario.still Scenario.nothing_refused
    (fun _ => Scenario.catalog_of [("app", false)] []
                [keyed "public" "id" 1; keyed "audit" "uid" 2]).

End Cases.

Module Lines.

(** No byte of [s] is a control character: none is below 32. *)
Fixpoint control_free (s : string) : bool :=
  match s with
  | EmptyString => true
  | String c s' => (32 <=? nat_of_ascii c)%nat && control_free s'
  end.

(** The lines of a text, as a reader of a line-delimited file takes them:
    a line ends at a line feed, which is not part of it; what follows the
    last line feed, if anything, is a line too. *)
Fixpoint lines (s : string) : list string :=
  match s with
  | EmptyString => []
  | String c s' =>
      if (nat_of_ascii c =? 10)%nat then "" :: lines s'
      else match lines s' with
           | [] => [String c ""]
           | l :: ls => String c l :: ls
           end
  end.

End Lines.


(** * Properties *)

(** ** Text and JSON at work *)

Example str_int_examples :
  str_int 5432 = "5432" /\ str_int 0 = "0" /\ str_int (-1) = "-1".
Proof. repeat split. Qed.

Example quoted_example :
  quoted "{'a':1}" = "{" +:+ dq +:+ "a" +:+ dq +:+ ":1}".
Proof. reflexivity. Qed.

Example json_str_escapes :
  Json.str ("a" +:+ dq +:+ "b\c" +:+ nl)
  = dq +:+ "a\" +:+ dq +:+ "b\\c\n" +:+ dq.
Proof. reflexivity. Qed.

Example json_array_of_strings :
  Json.array (map Json.str ["id"; "name"]) = quoted "['id','name']"
  /\ Json.array (map Json.str []) = "[]".
Proof. split; reflexivity. Qed.

Example join_like_python :
  join ", " ["a"; "b"; "c"] = "a, b, c" /\ join ", " [] = ""
  /\ join ", " ["a"] = "a".
Proof. repeat split. Qed.

Example mkdir_keeps_and_creates :
  Fs.mkdir_from {[ ["a"] := Dir ]} [] ["a"; "b"]
  = Ok (<[ ["a"; "b"] := Dir ]> {[ ["a"] := Dir ]}).
Proof. reflexivity. Qed.

Example mkdir_file_in_the_way :
  Fs.mkdir_from {[ ["a"] := File "x" ]} [] ["a"; "b"]
  = Raise (Fs.os_error "NotADirectoryError" ["a"]).
Proof. reflexivity. Qed.

(** ** Computations *)

Section MonadFacts.

Context {S : Type}.

Lemma bind_ok {A B} (m : M S A) (k : A -> M S B) s a s' :
  m s = (Ok a, s') -> bind m k s = k a s'.
Proof. intros E. unfold bind. now rewrite E. Qed.

Lemma bind_raise {A B} (m : M S A) (k : A -> M S B) s e s' :
  m s = (Raise e, s') -> bind m k s = (Raise e, s').
Proof. intros E. unfold bind. now rewrite E. Qed.

(** How a sequence ended: its first part raised, or it returned and the
    rest decided. *)
Lemma bind_inv {A B} (m : M S A) (k : A -> M S B) s r s2 :
  bind m k s = (r, s2) ->
  (exists a s1, m s = (Ok a, s1) /\ k a s1 = (r, s2))
  \/ (exists e, m s = (Raise e, s2) /\ r = Raise e).
Proof.
  unfold bind. destruct (m s) as [[a|e] s1]; intros E.
  - left. eauto.
  - right. inversion E; subst. eauto.
Qed.

Lemma bind_inv_ok {A B} (m : M S A) (k : A -> M S B) s b s2 :
  bind m k s = (Ok b, s2) ->
  exists a s1, m s = (Ok a, s1) /\ k a s1 = (Ok b, s2).
Proof.
  intros E. destruct (bind_inv _ _ _ _ _ E) as [H|[e [_ H]]];
    [exact H | discriminate].
Qed.

Lemma for_each_app {A} (l1 l2 : list A) (body : A -> M S unit) s :
  for_each (l1 ++ l2) body s =
  match for_each l1 body s with
  | (Ok _, s') => for_each l2 body s'
  | (Raise e, s') => (Raise e, s')
  end.
Proof.
  revert s. induction l1 as [|x l1 IH]; intros s; simpl.
  - reflexivity.
  - unfold bind. destruct (body x s) as [[[]|e] s1]; [apply IH | reflexivity].
Qed.

(** A loop ends at the first element whose body raises: what follows it
    is not visited. *)
Lemma for_each_stops {A} (pre post : list A) x (body : A -> M S unit)
      s s1 e s2 :
  for_each pre body s = (Ok tt, s1) ->
  body x s1 = (Raise e, s2) ->
  for_each (pre ++ x :: post) body s = (Raise e, s2).
Proof.
  intros Hpre Hx. rewrite for_each_app, Hpre. simpl.
  now apply bind_raise.
Qed.

End MonadFacts.

(** ** The failure boundary of [connect_and_fetch] *)



(** A server that refuses the administrative connection contributes no
    record: the scan returns the empty list and logs the refusal. *)
Lemma refused_server_contributes_nothing env server h e :
  fault env (clock h) = None ->
  accepts env server "postgres" (clock h) = Some e ->
  connect_and_fetch env server h =
    (Ok [], add_logged (scan_error_message server e) (tick h)).
Proof.
  intros Hf Ha.
  unfold connect_and_fetch, try_block, list_databases, bind, in_frame,
    connect, operation.
  simpl. now rewrite Hf, Ha.
Qed.

(** [connect_and_fetch] returns, whatever happens in its [try] block. *)
Lemma connect_and_fetch_returns env server h :
  exists records h', connect_and_fetch env server h = (Ok records, h').
Proof.
  unfold connect_and_fetch.
  destruct (try_block env server (new_frame h)) as [[u|e] st]; eauto.
Qed.

(** ** The operations of a scan *)

Section ScanFacts.

Variable env : Env.

Lemma in_frame_inv {A} (m : M Process A) st r st' :
  in_frame m st = (r, st') ->
  m (proc st) = (r, proc st') /\ metadata st' = metadata st.
Proof.
  unfold in_frame. destruct (m (proc st)) as [r0 h]. intros E.
  inversion E; subst. split; reflexivity.
Qed.

Lemma subscript_inv {A} (row : option A) (st : Frame) r st' :
  subscript row st = (r, st') ->
  st' = st /\ match r with
              | Ok a => row = Some a
              | Raise _ => row = None
              end.
Proof.
  destruct row as [a|]; unfold subscript, ret, raise; intros E;
    inversion E; subst; split; reflexivity.
Qed.

Lemma operation_inv {A} (act : nat -> M Process A) h r h' :
  operation env act h = (r, h') ->
  (exists e, fault env (clock h) = Some e /\ r = Raise e /\ h' = tick h)
  \/ (fault env (clock h) = None /\ act (clock h) (tick h) = (r, h')).
Proof.
  unfold operation. destruct (fault env (clock h)) as [e|]; intros E.
  - left. inversion E; subst. eauto.
  - right. auto.
Qed.

(** A statement changes nothing of the process but its clock; when it
    returns, its rows are those of the catalog at the moment it was
    sent. *)
Lemma execute_inv {R} cur (q : Database -> Result (list R)) h r h' :
  execute env cur q h = (r, h') ->
  h' = tick h
  /\ forall rows, r = Ok rows ->
       q (catalog env (conn_server cur) (conn_dbname cur) (clock h))
       = Ok rows.
Proof.
  intros E. apply operation_inv in E as [(e & _ & -> & ->)|[_ E]].
  - split; [reflexivity | discriminate].
  - destruct (bool_decide (conn_id cur ∈ closed (tick h)));
      inversion E; subst; split; try reflexivity; try discriminate.
    intros rows ->. reflexivity.
Qed.

Lemma framed_execute_inv {R} cur (q : Database -> Result (list R))
      st r st' :
  in_frame (execute env cur q) st = (r, st') ->
  metadata st' = metadata st
  /\ proc st' = tick (proc st)
  /\ forall rows, r = Ok rows ->
       q (catalog env (conn_server cur) (conn_dbname cur)
                  (clock (proc st))) = Ok rows.
Proof.
  intros E. apply in_frame_inv in E as [E Hm].
  apply execute_inv in E as [Hh Hq]. auto.
Qed.

Lemma head_map_Some {A B} (f : A -> B) (l : list A) b :
  head (map f l) = Some b -> exists a, head l = Some a /\ f a = b.
Proof.
  destruct l as [|a l]; simpl; [discriminate|].
  intros E. inversion E. eauto.
Qed.

(** The body of the table loop: either it raises and leaves [metadata]
    as it found it, or it appends one record, made of the facts of the
    database it was given and of what it has queried for the table.  The
    row count of that record is the estimate of the first row of
    [pg_class], in scan order, whose [relname] is the name of the table;
    the schema plays no part in the choice. *)
Lemma table_body_inv server db cur v x t st r st' :
  table_body env server db cur v x t st = (r, st') ->
  match r with
  | Raise _ => metadata st' = metadata st
  | Ok _ =>
      exists row cols pks idx fks,
        head (List.filter (fun c => String.eqb (relname c) (snd t))
                (pg_class (catalog env (conn_server cur) (conn_dbname cur)
                                   (clock (proc st))))) = Some row
        /\ metadata st' =
           metadata st ++
             [{| server := server_name server; database := db;
                 schema := fst t; table := snd t;
                 postgres_version := v; extensions := x;
                 rowcount := reltuples row; primary_keys := pks;
                 columns := cols; indexes := idx; foreign_keys := fks |}]
  end.
Proof.
  unfold table_body. intros E.
  apply bind_inv in E as [(rows & s1 & E1 & E)|(e & E1 & ->)];
    [|apply framed_execute_inv in E1; tauto].
  apply framed_execute_inv in E1 as (M1 & P1 & Q1).
  specialize (Q1 rows eq_refl).
  apply bind_inv in E as [(n & s2 & E2 & E)|(e & E2 & ->)];
    apply subscript_inv in E2 as [-> R2]; [|exact M1].
  apply bind_inv in E as [(cols & s3 & E3 & E)|(e & E3 & ->)];
    apply framed_execute_inv in E3 as (M3 & _ & _); [|congruence].
  apply bind_inv in E as [(pks & s4 & E4 & E)|(e & E4 & ->)];
    apply framed_execute_inv in E4 as (M4 & _ & _); [|congruence].
  apply bind_inv in E as [(idx & s5 & E5 & E)|(e & E5 & ->)];
    apply framed_execute_inv in E5 as (M5 & _ & _); [|congruence].
  apply bind_inv in E as [(fks & s6 & E6 & E)|(e & E6 & ->)];
    apply framed_execute_inv in E6 as (M6 & _ & _); [|congruence].
  unfold append in E. inversion E; subst r st'. simpl.
  unfold Query.estimate in Q1. inversion Q1; subst rows.
  unfold fetchone in R2. apply head_map_Some in R2 as (row & Hrow & <-).
  exists row. do 4 eexists. split; [exact Hrow|].
  rewrite M6, M5, M4, M3, M1. reflexivity.
Qed.

End ScanFacts.

(** ** The row count *)

(** C4.  The row count of a record is the estimate of the first row of
    [pg_class] whose [relname] is the bare name of the table, whatever
    schema that row belongs to.  And there is a catalog, with a table
    [users] in each of two schemas, for which the record of [audit.users]
    carries the estimate of [public.users] and not its own. *)
Theorem rowcount_matches_relname_only :
  (forall env server db cur v x sch tbl st st',
      table_body env server db cur v x (sch, tbl) st = (Ok tt, st') ->
      exists r row,
        metadata st' = metadata st ++ [r]
        /\ schema r = sch /\ table r = tbl
        /\ head (List.filter (fun c => String.eqb (relname c) tbl)
                   (pg_class (catalog env (conn_server cur) (conn_dbname cur)
                                      (clock (proc st))))) = Some row
        /\ rowcount r = reltuples row)
  /\ (exists env server h records h' r own other,
         connect_and_fetch env server h = (Ok records, h')
         /\ In r records
         /\ In own (pg_class (catalog env server (database r) 0%nat))
         /\ relnamespace own = schema r /\ relname own = table r
         /\ In other (pg_class (catalog env server (database r) 0%nat))
         /\ relnamespace other <> schema r /\ relname other = table r
         /\ rowcount r = reltuples other
         /\ rowcount r <> reltuples own).
Proof.
  split.
  - intros env server db cur v x sch tbl st st' E.
    apply table_body_inv in E as (row & cols & pks & idx & fks & Hrow & Hm).
    eexists. exists row. split; [exact Hm|]. simpl in *. auto.
  - exists Scenario.two_users, Scenario.the_server, Scenario.start.
    eexists. eexists.
    exists {| server := "host:5432"; database := "app"; schema := "audit";
              table := "users"; postgres_version := "PostgreSQL 15.2";
              extensions := ["plpgsql"]; rowcount := 42; primary_keys := [];
              columns := [{| column_name := "id"; data_type := "integer";
                             is_nullable := "NO"; column_default := None |}];
              indexes := []; foreign_keys := [] |}.
    exists {| relnamespace := "audit"; relname := "users"; reltuples := 7 |}.
    exists {| relnamespace := "public"; relname := "users"; reltuples := 42 |}.
    split; [vm_compute; reflexivity|].
    split; [right; left; reflexivity|].
    split; [right; left; reflexivity|].
    split; [reflexivity|]. split; [reflexivity|].
    split; [left; reflexivity|].
    split; [discriminate|]. split; [reflexivity|].
    split; [reflexivity|discriminate].
Qed.

(** ** A failure in one table *)

(** C2, as the code has it.  When a query for one table raises, the scan of
    the server ends there: the tables and the databases that follow are not
    visited, the exception reaches the handler of [connect_and_fetch], and
    the scan returns exactly the records assembled before the failing
    table.  The failure is isolated per server, not per table. *)
Theorem table_failure_ends_scan env server h conn dbs_before db dbs_after
        st1 st2 db_conn db_cur v x tables_before t tables_after st3 st4
        e st5 :
  list_databases env server (new_frame h)
    = (Ok (conn, dbs_before ++ db :: dbs_after), st1) ->
  for_each dbs_before (database_body env server) st1 = (Ok tt, st2) ->
  open_database env server db st2
    = (Ok (db_conn, db_cur, v, x, tables_before ++ t :: tables_after), st3) ->
  for_each tables_before (table_body env server db db_cur v x) st3
    = (Ok tt, st4) ->
  table_body env server db db_cur v x t st4 = (Raise e, st5) ->
  connect_and_fetch env server h =
    (Ok (metadata st4),
     add_logged (scan_error_message server e) (proc st5)).
Proof.
  intros Hlist Hdbs Hopen Htables Ht.
  assert (Hm : metadata st5 = metadata st4)
    by exact (table_body_inv _ _ _ _ _ _ _ _ _ _ Ht).
  assert (Hdb : database_body env server db st2 = (Raise e, st5)).
  { unfold database_body. rewrite (bind_ok _ _ _ _ _ Hopen).
    apply bind_raise. eapply for_each_stops; eassumption. }
  assert (Htry : try_block env server (new_frame h) = (Raise e, st5)).
  { unfold try_block. rewrite (bind_ok _ _ _ _ _ Hlist).
    apply bind_raise. eapply for_each_stops; eassumption. }
  unfold connect_and_fetch. rewrite Htry, Hm. reflexivity.
Qed.

(** In the scenario where [public.Orders] does not resolve: the scan
    returns the record of [items], the table before [Orders]. *)
Lemma table_failure_ends_scan_witness :
  exists records h',
    connect_and_fetch Scenario.orders_unresolved Scenario.the_server
                      Scenario.start = (Ok records, h')
    /\ map table records = ["items"].
Proof.
  eexists. eexists. split.
  - eapply (table_failure_ends_scan Scenario.orders_unresolved
              Scenario.the_server Scenario.start
              _ [] "shop" ["crm"] _ _ _ _ _ _
              [("public", "items")] ("public", "Orders")
              [("public", "customers")]).
    + vm_compute. reflexivity.
    + vm_compute. reflexivity.
    + vm_compute. reflexivity.
    + vm_compute. reflexivity.
    + vm_compute. reflexivity.
  - reflexivity.
Defined.

(** The claim C2 fails on the code.  The foreign-key query of
    [shop.public.Orders] raises; the database [crm], next on the same
    server, has a table that a scan reads without error; the scan of the
    server returns no record of [crm]. *)
Lemma table_failure_not_isolated :
  exists e st records h',
    try_block Scenario.orders_unresolved Scenario.the_server
              (new_frame Scenario.start) = (Raise e, st)
    /\ exc_str e = "relation " +:+ dq +:+ "public.orders" +:+ dq
                   +:+ " does not exist"
    /\ fst (database_body Scenario.orders_unresolved Scenario.the_server
                          "crm" (new_frame Scenario.start)) = Ok tt
    /\ map table
           (metadata
              (snd (database_body Scenario.orders_unresolved
                      Scenario.the_server "crm"
                      (new_frame Scenario.start)))) = ["accounts"]
    /\ connect_and_fetch Scenario.orders_unresolved Scenario.the_server
                         Scenario.start = (Ok records, h')
    /\ map database records = ["shop"].
Proof.
  eexists. eexists. eexists. eexists.
  split; [vm_compute; reflexivity|].
  split; [reflexivity|].
  split; [vm_compute; reflexivity|].
  split; [vm_compute; reflexivity|].
  split; [vm_compute; reflexivity|].
  reflexivity.
Qed.

(** ** The facts of a database in its records *)

Section Denormalisation.

Variable env : Env.

Lemma connect_inv s dbname h c h' :
  connect env s dbname h = (Ok c, h') ->
  conn_server c = s /\ conn_dbname c = dbname.
Proof.
  intros E. apply operation_inv in E as [(e & _ & F & _)|[_ E]];
    [discriminate|].
  destruct (accepts env s dbname (clock h)); inversion E; subst.
  split; reflexivity.
Qed.

Lemma cursor_inv c h c' h' :
  cursor c h = (Ok c', h') -> c' = c /\ h' = h.
Proof.
  unfold cursor. destruct (bool_decide (conn_id c ∈ closed h));
    intros E; inversion E; subst. split; reflexivity.
Qed.

(** The records that the table loop of a database appends are all
    records of that database, with the version and the extensions that
    the loop was given. *)
Lemma table_loop_inv server db cur v x tables st r st' :
  for_each tables (table_body env server db cur v x) st = (r, st') ->
  exists block,
    metadata st' = metadata st ++ block
    /\ Forall (Spec.of_database db v x) block.
Proof.
  revert st. induction tables as [|t tables IH]; intros st E.
  - inversion E; subst. exists []. split; [now rewrite app_nil_r|constructor].
  - simpl in E.
    apply bind_inv in E as [([] & s1 & E1 & E)|(e & E1 & ->)].
    + apply table_body_inv in E1 as (row & cols & pks & idx & fks & _ & M1).
      apply IH in E as (block & M & F).
      eexists (_ :: block). split.
      * rewrite M, M1, <- app_assoc. reflexivity.
      * constructor; [|exact F]. repeat split.
    + apply table_body_inv in E1. exists [].
      split; [now rewrite app_nil_r|constructor].
Qed.

Lemma open_database_inv server db st r st' :
  open_database env server db st = (r, st') ->
  metadata st' = metadata st.
Proof.
  unfold open_database. intros E.
  apply bind_inv in E as [(c & s1 & E1 & E)|(e & E1 & ->)];
    apply in_frame_inv in E1 as [_ M1]; [|exact M1].
  apply bind_inv in E as [(cur & s2 & E2 & E)|(e & E2 & ->)];
    apply in_frame_inv in E2 as [_ M2]; [|congruence].
  apply bind_inv in E as [(rows & s3 & E3 & E)|(e & E3 & ->)];
    apply in_frame_inv in E3 as [_ M3]; [|congruence].
  apply bind_inv in E as [(v & s4 & E4 & E)|(e & E4 & ->)];
    apply subscript_inv in E4 as [-> _]; [|congruence].
  apply bind_inv in E as [(x & s5 & E5 & E)|(e & E5 & ->)];
    apply in_frame_inv in E5 as [_ M5]; [|congruence].
  apply bind_inv in E as [(ts & s6 & E6 & E)|(e & E6 & ->)];
    apply in_frame_inv in E6 as [_ M6]; [|congruence].
  inversion E; subst. congruence.
Qed.

(** All the records that the visit of one database appends carry one
    version and one list of extensions. *)
Lemma database_body_inv server db st r st' :
  database_body env server db st = (r, st') ->
  exists v x block,
    metadata st' = metadata st ++ block
    /\ Forall (Spec.of_database db v x) block.
Proof.
  unfold database_body. intros E.
  apply bind_inv in E as [(opened_db & s1 & E1 & E)|(e & E1 & ->)];
    apply open_database_inv in E1.
  - destruct opened_db as [[[[db_conn db_cur] v] x] tables].
    exists v, x.
    apply bind_inv in E as [([] & s2 & E2 & E)|(e & E2 & ->)];
      apply table_loop_inv in E2 as (block & M2 & F).
    + apply in_frame_inv in E as [_ M3].
      exists block. split; [congruence|exact F].
    + exists block. split; [congruence|exact F].
  - exists "", [], []. split; [now rewrite app_nil_r|constructor].
Qed.

Lemma of_database_denormalised db v x block rest :
  Forall (Spec.of_database db v x) block ->
  Spec.denormalised rest ->
  Forall (fun r => database r <> db) rest ->
  Spec.denormalised (block ++ rest).
Proof.
  intros Hb Hr Hne r1 r2 I1 I2 Hs Hd.
  rewrite List.Forall_forall in Hb, Hne.
  apply in_app_or in I1 as [I1|I1]; apply in_app_or in I2 as [I2|I2].
  - destruct (Hb _ I1) as (_ & V1 & X1), (Hb _ I2) as (_ & V2 & X2).
    split; congruence.
  - destruct (Hb _ I1) as (D1 & _). exfalso.
    apply (Hne _ I2). congruence.
  - destruct (Hb _ I2) as (D2 & _). exfalso.
    apply (Hne _ I1). congruence.
  - apply Hr; auto.
Qed.

(** Over databases of different names, the loop appends records in which
    the facts of a database are the same wherever it appears. *)
Lemma database_loop_inv server dbs st r st' :
  List.NoDup dbs ->
  for_each dbs (database_body env server) st = (r, st') ->
  exists block,
    metadata st' = metadata st ++ block
    /\ Spec.denormalised block
    /\ Forall (fun rec => In (database rec) dbs) block.
Proof.
  intros Hnd. revert st.
  induction dbs as [|db dbs IH]; intros st E.
  - inversion E; subst. exists [].
    split; [now rewrite app_nil_r|]. split; [|constructor].
    intros r1 r2 [].
  - apply List.NoDup_cons_iff in Hnd as [Hnotin Hnd]. simpl in E.
    apply bind_inv in E as [([] & s1 & E1 & E)|(e & E1 & ->)];
      apply database_body_inv in E1 as (v & x & block & M1 & F1).
    + apply (IH Hnd) in E as (rest & M & D & F).
      exists (block ++ rest). split; [|split].
      * rewrite M, M1, <- app_assoc. reflexivity.
      * apply (of_database_denormalised db v x); auto.
        rewrite List.Forall_forall in F |- *.
        intros rec I Heq. apply Hnotin. rewrite <- Heq. now apply F.
      * apply List.Forall_app. split.
        -- eapply List.Forall_impl; [|exact F1].
           intros rec (-> & _). now left.
        -- eapply List.Forall_impl; [|exact F]. intros rec I. now right.
    + exists block. split; [exact M1|]. split.
      * rewrite <- (app_nil_r block).
        apply (of_database_denormalised db v x); auto.
        intros r1 r2 [].
      * eapply List.Forall_impl; [|exact F1]. intros rec (-> & _). now left.
Qed.

Lemma NoDup_map_filter {A B} (f : A -> B) (p : A -> bool) (l : list A) :
  List.NoDup (map f l) -> List.NoDup (map f (List.filter p l)).
Proof.
  induction l as [|a l IH]; simpl; intros H; [constructor|].
  apply List.NoDup_cons_iff in H as [Hnotin H].
  destruct (p a); simpl; [|now apply IH].
  apply List.NoDup_cons_iff. split; [|now apply IH].
  intros I. apply Hnotin.
  apply in_map_iff in I as (a' & <- & I).
  apply filter_In in I as [I _]. now apply in_map.
Qed.

(** The names that the scan iterates over are those of the rows of
    [pg_database] that are not templates, read on the administrative
    connection. *)
Lemma list_databases_inv server st conn dbs st' :
  list_databases env server st = (Ok (conn, dbs), st') ->
  metadata st' = metadata st
  /\ exists t,
       dbs = map fst (List.filter (fun r => negb (snd r))
                        (pg_database (catalog env server "postgres" t))).
Proof.
  unfold list_databases. intros E.
  apply bind_inv_ok in E as (c & s1 & E1 & E).
  apply in_frame_inv in E1 as [E1 M1].
  apply connect_inv in E1 as [Hs Hd].
  apply bind_inv_ok in E as (cur & s2 & E2 & E).
  apply in_frame_inv in E2 as [E2 M2].
  apply cursor_inv in E2 as [-> _].
  apply bind_inv_ok in E as (rows & s3 & E3 & E).
  apply framed_execute_inv in E3 as (M3 & _ & Q).
  specialize (Q rows eq_refl). rewrite Hs, Hd in Q.
  inversion E; subst. split; [congruence|].
  inversion Q. eauto.
Qed.

Lemma list_databases_metadata server st r st' :
  list_databases env server st = (r, st') ->
  metadata st' = metadata st.
Proof.
  unfold list_databases. intros E.
  apply bind_inv in E as [(c & s1 & E1 & E)|(e & E1 & ->)];
    apply in_frame_inv in E1 as [_ M1]; [|exact M1].
  apply bind_inv in E as [(cur & s2 & E2 & E)|(e & E2 & ->)];
    apply in_frame_inv in E2 as [_ M2]; [|congruence].
  apply bind_inv in E as [(rows & s3 & E3 & E)|(e & E3 & ->)];
    apply in_frame_inv in E3 as [_ M3]; [|congruence].
  inversion E; subst. congruence.
Qed.

Lemma try_block_denormalised server h r st :
  Spec.datname_unique env ->
  try_block env server (new_frame h) = (r, st) ->
  Spec.denormalised (metadata st).
Proof.
  intros Hu E. unfold try_block in E.
  apply bind_inv in E as [([conn dbs] & s1 & E1 & E)|(e & E1 & ->)].
  - apply list_databases_inv in E1 as (M1 & t & ->).
    assert (Hnd := NoDup_map_filter fst (fun r => negb (snd r)) _
                     (Hu server "postgres" t)).
    apply bind_inv in E as [([] & s2 & E2 & E)|(e & E2 & ->)];
      apply (database_loop_inv _ _ _ _ _ Hnd) in E2 as (block & M2 & D & _).
    + apply in_frame_inv in E as [_ M3].
      rewrite M3, M2, M1. exact D.
    + rewrite M2, M1. exact D.
  - apply list_databases_metadata in E1. rewrite E1.
    intros r1 r2 [].
Qed.

End Denormalisation.

(** C9.  In the records of one scan, any two records of the same server and
    database carry the same extensions and the same version: both are read
    once in the visit of a database and copied into each of its records,
    and the scan visits a database once, the names in [pg_database] being
    distinct. *)
Theorem scan_denormalised env srv h records h' :
  Spec.datname_unique env ->
  connect_and_fetch env srv h = (Ok records, h') ->
  forall r1 r2,
    In r1 records -> In r2 records ->
    server r1 = server r2 -> database r1 = database r2 ->
    extensions r1 = extensions r2
    /\ postgres_version r1 = postgres_version r2.
Proof.
  intros Hu E. unfold connect_and_fetch in E.
  destruct (try_block env srv (new_frame h)) as [[u|e] st] eqn:T;
    inversion E; subst; exact (try_block_denormalised env _ _ _ _ Hu T).
Qed.

(** In the scenario of the two tables [users]: the two records of the
    database [app] carry the same extensions and version. *)
Lemma scan_denormalised_witness :
  exists records h' r1 r2,
    connect_and_fetch Scenario.two_users Scenario.the_server Scenario.start
      = (Ok records, h')
    /\ records = [r1; r2]
    /\ schema r1 <> schema r2
    /\ extensions r1 = extensions r2
    /\ postgres_version r1 = postgres_version r2.
Proof.
  do 4 eexists.
  split; [vm_compute; reflexivity|].
  split; [reflexivity|].
  split; [discriminate|].
  eapply (scan_denormalised Scenario.two_users Scenario.the_server
            Scenario.start).
  - intros s dbname t. simpl. constructor; [simpl; tauto|constructor].
  - vm_compute. reflexivity.
  - left. reflexivity.
  - right. left. reflexivity.
  - reflexivity.
  - reflexivity.
Defined.

(** ** Connections *)

Section Connections.

Variable env : Env.

Lemma framed_execute_connections {R} cur (q : Database -> Result (list R))
      st r st' :
  in_frame (execute env cur q) st = (r, st') ->
  opened (proc st') = opened (proc st)
  /\ closed (proc st') = closed (proc st).
Proof.
  intros E. apply framed_execute_inv in E as (_ & -> & _).
  split; reflexivity.
Qed.

(** The table loop opens and closes nothing. *)
Lemma table_body_connections server db cur v x t st r st' :
  table_body env server db cur v x t st = (r, st') ->
  opened (proc st') = opened (proc st)
  /\ closed (proc st') = closed (proc st).
Proof.
  unfold table_body. intros E.
  apply bind_inv in E as [(rows & s1 & E1 & E)|(e & E1 & ->)];
    apply framed_execute_connections in E1 as [O1 C1]; [|now split].
  apply bind_inv in E as [(n & s2 & E2 & E)|(e & E2 & ->)];
    apply subscript_inv in E2 as [-> _]; [|now split].
  apply bind_inv in E as [(cols & s3 & E3 & E)|(e & E3 & ->)];
    apply framed_execute_connections in E3 as [O3 C3];
    [|split; congruence].
  apply bind_inv in E as [(pks & s4 & E4 & E)|(e & E4 & ->)];
    apply framed_execute_connections in E4 as [O4 C4];
    [|split; congruence].
  apply bind_inv in E as [(idx & s5 & E5 & E)|(e & E5 & ->)];
    apply framed_execute_connections in E5 as [O5 C5];
    [|split; congruence].
  apply bind_inv in E as [(fks & s6 & E6 & E)|(e & E6 & ->)];
    apply framed_execute_connections in E6 as [O6 C6];
    [|split; congruence].
  unfold append in E. inversion E; subst. simpl. split; congruence.
Qed.

Lemma table_loop_connections server db cur v x tables st r st' :
  for_each tables (table_body env server db cur v x) st = (r, st') ->
  opened (proc st') = opened (proc st)
  /\ closed (proc st') = closed (proc st).
Proof.
  revert st. induction tables as [|t tables IH]; intros st E.
  - inversion E. split; reflexivity.
  - simpl in E.
    apply bind_inv in E as [([] & s1 & E1 & E)|(e & E1 & ->)];
      apply table_body_connections in E1 as [O1 C1]; [|now split].
    apply IH in E as [O C]. split; congruence.
Qed.

Lemma framed_connect_ok s dbname st c st' :
  in_frame (connect env s dbname) st = (Ok c, st') ->
  opened (proc st') = opened (proc st) ++ [c]
  /\ closed (proc st') = closed (proc st).
Proof.
  intros E. apply in_frame_inv in E as [E _].
  apply operation_inv in E as [(e & _ & F & _)|[_ E]]; [discriminate|].
  destruct (accepts env s dbname (clock (proc st))); inversion E.
  split; reflexivity.
Qed.

Lemma framed_close_ok c st st' :
  in_frame (close env c) st = (Ok tt, st') ->
  opened (proc st') = opened (proc st)
  /\ closed (proc st') = closed (proc st) ++ [conn_id c].
Proof.
  intros E. apply in_frame_inv in E as [E _].
  apply operation_inv in E as [(e & _ & F & _)|[_ E]]; [discriminate|].
  inversion E. split; reflexivity.
Qed.

Lemma framed_cursor_ok c st c' st' :
  in_frame (cursor c) st = (Ok c', st') -> proc st' = proc st.
Proof.
  intros E. apply in_frame_inv in E as [E _].
  now apply cursor_inv in E as [_ ->].
Qed.

Lemma open_database_connections server db st db_conn db_cur v x tables st' :
  open_database env server db st = (Ok (db_conn, db_cur, v, x, tables), st')
  -> opened (proc st') = opened (proc st) ++ [db_conn]
     /\ closed (proc st') = closed (proc st).
Proof.
  unfold open_database. intros E.
  apply bind_inv_ok in E as (c & s1 & E1 & E).
  apply framed_connect_ok in E1 as [O1 C1].
  apply bind_inv_ok in E as (cur & s2 & E2 & E).
  apply framed_cursor_ok in E2.
  apply bind_inv_ok in E as (rows & s3 & E3 & E).
  apply framed_execute_connections in E3 as [O3 C3].
  apply bind_inv_ok in E as (ver & s4 & E4 & E).
  apply subscript_inv in E4 as [-> _].
  apply bind_inv_ok in E as (exts & s5 & E5 & E).
  apply framed_execute_connections in E5 as [O5 C5].
  apply bind_inv_ok in E as (ts & s6 & E6 & E).
  apply framed_execute_connections in E6 as [O6 C6].
  inversion E; subst. split; congruence.
Qed.

(** A visit of a database that returns has opened one connection and
    closed it. *)
Lemma database_body_connections server db st st' :
  database_body env server db st = (Ok tt, st') ->
  exists c,
    opened (proc st') = opened (proc st) ++ [c]
    /\ closed (proc st') = closed (proc st) ++ [conn_id c].
Proof.
  unfold database_body. intros E.
  apply bind_inv_ok in E as ([[[[db_conn db_cur] v] x] tables] & s1 & E1 & E).
  apply open_database_connections in E1 as [O1 C1].
  apply bind_inv_ok in E as ([] & s2 & E2 & E).
  apply table_loop_connections in E2 as [O2 C2].
  apply framed_close_ok in E as [O3 C3].
  exists db_conn. split; congruence.
Qed.

Lemma database_loop_connections server dbs st st' :
  for_each dbs (database_body env server) st = (Ok tt, st') ->
  exists cs,
    opened (proc st') = opened (proc st) ++ cs
    /\ closed (proc st') = closed (proc st) ++ map conn_id cs.
Proof.
  revert st. induction dbs as [|db dbs IH]; intros st E.
  - inversion E. exists []. now rewrite !app_nil_r.
  - simpl in E. apply bind_inv_ok in E as ([] & s1 & E1 & E).
    apply database_body_connections in E1 as (c & O1 & C1).
    apply IH in E as (cs & O & C). exists (c :: cs).
    rewrite O, C, O1, C1, <- !app_assoc. split; reflexivity.
Qed.

(** On the path without exception the scan closes what it opens: when
    the [try] block returns, [close()] has been called on the
    administrative connection and on the connection of every database,
    and these are all the connections that the scan has opened. *)
Lemma try_block_closes_on_return server h st :
  try_block env server (new_frame h) = (Ok tt, st) ->
  exists conn cs,
    opened (proc st) = opened h ++ conn :: cs
    /\ closed (proc st) = closed h ++ map conn_id cs ++ [conn_id conn].
Proof.
  unfold try_block. intros E.
  apply bind_inv_ok in E as ([conn dbs] & s1 & E1 & E).
  assert (H1 : opened (proc s1) = opened h ++ [conn]
               /\ closed (proc s1) = closed h).
  { unfold list_databases in E1.
    apply bind_inv_ok in E1 as (c & t1 & F1 & E1).
    apply framed_connect_ok in F1 as [O1 C1]. simpl in O1, C1.
    apply bind_inv_ok in E1 as (cur & t2 & F2 & E1).
    apply framed_cursor_ok in F2.
    apply bind_inv_ok in E1 as (rows & t3 & F3 & E1).
    apply framed_execute_connections in F3 as [O3 C3].
    inversion E1; subst. split; congruence. }
  destruct H1 as [O1 C1].
  apply bind_inv_ok in E as ([] & s2 & E2 & E).
  apply database_loop_connections in E2 as (cs & O2 & C2).
  apply framed_close_ok in E as [O3 C3].
  exists conn, cs. rewrite O3, C3, O2, C2, O1, C1, <- !app_assoc.
  split; reflexivity.
Qed.

End Connections.

(** C3 fails on the error path of the code.  After the scan in which the
    foreign-key query of [shop.public.Orders] raises, the administrative
    connection and the connection to [shop] have been opened and [close()]
    has been called on neither. *)
Lemma connections_left_open_on_error :
  exists records h',
    connect_and_fetch Scenario.orders_unresolved Scenario.the_server
                      Scenario.start = (Ok records, h')
    /\ map conn_dbname (opened h') = ["postgres"; "shop"]
    /\ closed h' = [].
Proof.
  eexists. eexists.
  split; [vm_compute; reflexivity|].
  split; reflexivity.
Qed.

(** ** The sequential fan-out *)

Lemma scan_in_turn_concat env servers acc h :
  scan_in_turn env servers acc h =
    (Ok (acc ++ List.concat (fst (Spec.scan_each env servers h))),
     snd (Spec.scan_each env servers h)).
Proof.
  revert acc h. induction servers as [|s rest IH]; intros acc h; simpl.
  - unfold ret. now rewrite app_nil_r.
  - destruct (connect_and_fetch_returns env s h) as (found & h1 & E).
    rewrite (bind_ok _ _ _ _ _ E), E, IH.
    destruct (Spec.scan_each env rest h1) as [others h2]. simpl.
    now rewrite <- app_assoc.
Qed.

(** C8.  Without [parallel], the collection that [generate_doc] hands to
    the report writer is the concatenation of what the scans of the
    servers return, one scan after the other in the order of the input,
    every record kept and none moved. *)
Theorem sequential_collect_is_concatenation env servers output_dir h :
  collect env servers false h =
    (Ok (List.concat (fst (Spec.scan_each env servers h))),
     snd (Spec.scan_each env servers h))
  /\ generate_doc env servers output_dir false h =
     save_results env output_dir
       (List.concat (fst (Spec.scan_each env servers h)))
       (snd (Spec.scan_each env servers h)).
Proof.
  assert (E : collect env servers false h =
              (Ok (List.concat (fst (Spec.scan_each env servers h))),
               snd (Spec.scan_each env servers h))).
  { unfold collect. now rewrite scan_in_turn_concat. }
  split; [exact E|].
  unfold generate_doc. now rewrite (bind_ok _ _ _ _ _ E).
Qed.

(** ** Text *)

Lemma append_nil_r (s : string) : s +:+ "" = s.
Proof.
  induction s as [|c s IH]; [reflexivity|].
  change (String c s +:+ "") with (String c (s +:+ "")). now rewrite IH.
Qed.

Lemma append_assoc (s1 s2 s3 : string) :
  (s1 +:+ s2) +:+ s3 = s1 +:+ s2 +:+ s3.
Proof.
  induction s1 as [|c s1 IH]; [reflexivity|].
  change ((String c s1 +:+ s2) +:+ s3)
    with (String c ((s1 +:+ s2) +:+ s3)).
  now rewrite IH.
Qed.

(** ** The operations of the report writer *)

Section ReportFacts.

Variable env : Env.

Lemma fs_operation_inv change h r h' :
  fs_operation env change h = (r, h') ->
  (files h' = files h /\ exists e, r = Raise e)
  \/ (change (files h) = Ok (files h') /\ r = Ok tt).
Proof.
  intros E. apply operation_inv in E as [(e & _ & -> & ->)|[_ E]].
  - left. split; [reflexivity|eauto].
  - change (files (tick h)) with (files h) in E.
    destruct (change (files h)) as [fs|e] eqn:C; inversion E; subst.
    + right. split; reflexivity.
    + left. split; [reflexivity|eauto].
Qed.

(** *** What reaches a file *)

Lemma appends_write f text : Spec.appends f (write env f text) text.
Proof.
  intros h h' content E F.
  apply fs_operation_inv in E as [[_ [e E]]|[E _]]; [discriminate|].
  unfold Fs.extend in E. rewrite F in E. inversion E as [E'].
  apply lookup_insert_eq.
Qed.

Lemma appends_ret f : Spec.appends f (ret tt) "".
Proof.
  intros h h' content E F. inversion E; subst.
  now rewrite append_nil_r.
Qed.

Lemma appends_bind f m1 m2 t1 t2 :
  Spec.appends f m1 t1 -> Spec.appends f m2 t2 ->
  Spec.appends f (run! m1 in m2) (t1 +:+ t2).
Proof.
  intros H1 H2 h h' content E F.
  apply bind_inv_ok in E as ([] & h1 & E1 & E2).
  rewrite <- append_assoc. eapply H2; [exact E2|].
  eapply H1; eassumption.
Qed.

Lemma appends_for_each {A} f (l : list A) body (g : A -> string) :
  (forall x, Spec.appends f (body x) (g x)) ->
  Spec.appends f (for_each l body) (cat (map g l)).
Proof.
  intros H. induction l as [|x l IH].
  - apply appends_ret.
  - change (Spec.appends f (run! body x in for_each l body)
                    (g x +:+ cat (map g l))).
    apply appends_bind; [apply H|exact IH].
Qed.

Lemma appends_if_nonempty {A} f (l : list A) m text :
  Spec.appends f m text ->
  Spec.appends f (if_nonempty l m) (match l with [] => "" | _ :: _ => text end).
Proof.
  intros H. destruct l; [apply appends_ret|exact H].
Qed.

Lemma default_or_empty_eq (o : option string) :
  default_or_empty o = match o with None => "" | Some s => s end.
Proof. destruct o as [[|c s]|]; reflexivity. Qed.

(** The writes of one record make up its section. *)
Lemma write_markdown_appends f item :
  Spec.appends f (write_markdown env f item) (Spec.markdown_section item).
Proof.
  assert (E : Spec.markdown_section item =
    ("## " +:+ server item +:+ " · " +:+ database item +:+ " · "
       +:+ schema item +:+ "." +:+ table item +:+ nl +:+ nl)
    +:+ ("- PostgreSQL Version: " +:+ postgres_version item +:+ nl)
    +:+ ("- Extensions: " +:+ join ", " (extensions item) +:+ nl)
    +:+ ("- Rowcount: " +:+ str_int (rowcount item) +:+ nl)
    +:+ Spec.primary_key_line item
    +:+ (nl +:+ "### Columns" +:+ nl +:+ nl)
    +:+ ("| Name | Type | Nullable | Default |" +:+ nl)
    +:+ ("|------|------|----------|---------|" +:+ nl)
    +:+ cat (map Spec.column_row (columns item))
    +:+ Spec.indexes_section item
    +:+ Spec.foreign_keys_section item
    +:+ Spec.separator).
  { unfold Spec.markdown_section, Spec.heading, Spec.columns_table,
      Spec.columns_header.
    now rewrite !append_assoc. }
  rewrite E. unfold write_markdown.
  repeat (apply appends_bind; [try apply appends_write|]).
  - apply (appends_if_nonempty f (primary_keys item)), appends_write.
  - apply appends_for_each. intros col.
    unfold Spec.column_row. rewrite <- default_or_empty_eq.
    apply appends_write.
  - apply (appends_if_nonempty f (indexes item)).
    apply appends_bind; [apply appends_write|].
    apply appends_for_each. intros idx. apply appends_write.
  - apply (appends_if_nonempty f (foreign_keys item)).
    apply appends_bind; [apply appends_write|].
    apply appends_for_each. intros fk. apply appends_write.
  - apply appends_write.
Qed.

End ReportFacts.

(** ** The optional parts of a Markdown section *)

(** C6.  The writes of one record put its section at the end of the
    Markdown file: the heading, the primary key line, the table of columns,
    the indexes, the foreign keys, the separator.  The primary key line is
    absent exactly when [primary_keys] is empty, and the table of columns
    follows with its header in either case; the Indexes part is absent
    exactly when [indexes] is empty; the Foreign Keys part is absent exactly
    when [foreign_keys] is empty. *)
Theorem markdown_optional_parts env f item h h' content :
  files h !! f = Some (File content) ->
  write_markdown env f item h = (Ok tt, h') ->
  files h' !! f =
    Some (File (content +:+ Spec.heading item
                +:+ Spec.primary_key_line item
                +:+ Spec.columns_table item
                +:+ Spec.indexes_section item
                +:+ Spec.foreign_keys_section item
                +:+ Spec.separator))
  /\ (Spec.primary_key_line item = "" <-> primary_keys item = [])
  /\ (primary_keys item <> [] ->
      Spec.primary_key_line item =
        "- Primary Key: " +:+ join ", " (primary_keys item) +:+ nl)
  /\ Spec.columns_table item =
       Spec.columns_header +:+ cat (map Spec.column_row (columns item))
  /\ (Spec.indexes_section item = "" <-> indexes item = [])
  /\ (indexes item <> [] ->
      Spec.indexes_section item =
        (nl +:+ "### Indexes" +:+ nl)
        +:+ cat (map Spec.bullet (indexes item)))
  /\ (Spec.foreign_keys_section item = "" <-> foreign_keys item = [])
  /\ (foreign_keys item <> [] ->
      Spec.foreign_keys_section item =
        (nl +:+ "### Foreign Keys" +:+ nl)
        +:+ cat (map Spec.bullet (foreign_keys item))).
Proof.
  intros F E. split.
  - exact (write_markdown_appends env f item h h' content E F).
  - unfold Spec.primary_key_line, Spec.indexes_section,
      Spec.foreign_keys_section.
    destruct (primary_keys item), (indexes item), (foreign_keys item);
      repeat split; intros; try reflexivity; try discriminate;
      try contradiction.
Qed.

(** For a record with no primary key, no index and no foreign key. *)
Lemma markdown_optional_parts_witness :
  exists h',
    write_markdown Scenario.quiet Scenario.report Scenario.bare_record
                   Scenario.report_opened = (Ok tt, h')
    /\ Spec.primary_key_line Scenario.bare_record = ""
    /\ files h' !! Scenario.report =
       Some (File ("" +:+ Spec.heading Scenario.bare_record
                   +:+ Spec.primary_key_line Scenario.bare_record
                   +:+ Spec.columns_table Scenario.bare_record
                   +:+ Spec.indexes_section Scenario.bare_record
                   +:+ Spec.foreign_keys_section Scenario.bare_record
                   +:+ Spec.separator)).
Proof.
  eexists. split; [vm_compute; reflexivity|].
  split; [reflexivity|].
  refine (proj1 (markdown_optional_parts Scenario.quiet Scenario.report
                   Scenario.bare_record Scenario.report_opened _ "" _ _)).
  - vm_compute. reflexivity.
  - vm_compute. reflexivity.
Defined.

(** ** What the report writer leaves in the file system *)

Section Frame.

Variable env : Env.

Lemma grown_refl touched fs : Spec.grown touched fs fs.
Proof. intros p. right. left. reflexivity. Qed.

Lemma grown_trans touched fs1 fs2 fs3 :
  Spec.grown touched fs1 fs2 -> Spec.grown touched fs2 fs3 ->
  Spec.grown touched fs1 fs3.
Proof.
  intros H12 H23 p.
  destruct (H12 p) as [T|[E12|[N1 D2]]]; [now left|..];
    destruct (H23 p) as [T|[E23|[N2 D3]]]; try (now left).
  - right. left. congruence.
  - right. right. split; congruence.
  - right. right. split; congruence.
  - congruence.
Qed.

Lemma grown_weaken (T T' : Path -> Prop) fs fs' :
  (forall p, T p -> T' p) -> Spec.grown T fs fs' -> Spec.grown T' fs fs'.
Proof. intros HT H p. destruct (H p) as [?|?]; auto. Qed.

Lemma touches_ret {A} T (a : A) : Spec.touches_only T (ret a).
Proof. intros h r h' E. inversion E. apply grown_refl. Qed.

Lemma touches_bind {A B} T (m : M Process A) (k : A -> M Process B) :
  Spec.touches_only T m -> (forall a, Spec.touches_only T (k a)) ->
  Spec.touches_only T (bind m k).
Proof.
  intros Hm Hk h r h' E.
  apply bind_inv in E as [(a & h1 & E1 & E2)|(e & E1 & _)].
  - eapply grown_trans; [eapply Hm|eapply Hk]; eassumption.
  - eapply Hm; eassumption.
Qed.

Lemma touches_for_each {A} T (l : list A) body :
  (forall x, Spec.touches_only T (body x)) -> Spec.touches_only T (for_each l body).
Proof.
  intros H. induction l as [|x l IH]; simpl.
  - apply touches_ret.
  - apply touches_bind; [apply H|intros _; exact IH].
Qed.

Lemma touches_weaken {A} (T T' : Path -> Prop) (m : M Process A) :
  (forall p, T p -> T' p) -> Spec.touches_only T m -> Spec.touches_only T' m.
Proof. intros HT H h r h' E. eapply grown_weaken; [exact HT|eauto]. Qed.

Lemma grown_insert (T : Path -> Prop) fs p node :
  T p -> Spec.grown T fs (<[p := node]> fs).
Proof.
  intros Hp q. destruct (decide (p = q)) as [<-|Hne]; [now left|].
  right. left. now apply lookup_insert_ne.
Qed.

Lemma touches_write f text : Spec.touches_only (eq f) (write env f text).
Proof.
  intros h r h' E.
  apply fs_operation_inv in E as [[-> _]|[E _]]; [apply grown_refl|].
  unfold Fs.extend in E.
  destruct (files h !! f) as [[content|]|]; inversion E.
  now apply grown_insert.
Qed.

Lemma mkdir_from_grown fs done todo fs' :
  Fs.mkdir_from fs done todo = Ok fs' ->
  Spec.grown (fun _ => False) fs fs'.
Proof.
  revert fs done. induction todo as [|name todo IH]; intros fs done E;
    simpl in E.
  - inversion E. apply grown_refl.
  - destruct (fs !! (done ++ [name])) as [[content|]|] eqn:L.
    + discriminate.
    + eapply IH; exact E.
    + eapply grown_trans; [|eapply IH; exact E].
      intros q. destruct (decide (done ++ [name] = q)) as [<-|Hne].
      * right. right. split; [exact L|apply lookup_insert_eq].
      * right. left. now apply lookup_insert_ne.
Qed.

Lemma touches_mkdir p : Spec.touches_only (fun _ => False) (mkdir env p).
Proof.
  intros h r h' E.
  apply fs_operation_inv in E as [[-> _]|[E _]]; [apply grown_refl|].
  eapply mkdir_from_grown; exact E.
Qed.

Lemma touches_idle {A} T (a : A) (change : Process -> Process) :
  (forall h, files (change h) = files h) ->
  Spec.touches_only T (operation env (fun _ h => (Ok a, change h))).
Proof.
  intros Hc h r h' E.
  apply operation_inv in E as [(e & _ & _ & ->)|[_ E]].
  - apply grown_refl.
  - inversion E. rewrite Hc. apply grown_refl.
Qed.

Lemma create_inv fs p fs' :
  Fs.create fs p = Ok fs' -> fs' = <[p := File ""]> fs.
Proof.
  unfold Fs.create. destruct (Fs.is_dir fs (removelast p)); [|discriminate].
  destruct (fs !! p) as [[content|]|]; intros E; inversion E; reflexivity.
Qed.

Lemma touches_with_open_w {A} p (body : Path -> M Process A) :
  Spec.touches_only (eq p) (body p) ->
  Spec.touches_only (eq p) (with_open_w env p body).
Proof.
  intros Hb h r h' E. unfold with_open_w in E.
  destruct (fs_operation env (fun fs => Fs.create fs p) h)
    as [[[]|e] h1] eqn:E1.
  - apply fs_operation_inv in E1 as [[_ [e F]]|[E1 _]]; [discriminate|].
    apply create_inv in E1.
    destruct (body p h1) as [r2 h2] eqn:E2.
    assert (G3 : Spec.grown (eq p) (files h2) (files h')).
    { destruct (operation env (fun _ h => (Ok tt, h)) h2)
        as [[[]|e] h3] eqn:E3; inversion E; subst;
        exact (touches_idle _ tt (fun h => h) (fun _ => eq_refl) _ _ _ E3). }
    eapply grown_trans; [|eapply grown_trans; [eapply Hb; exact E2|exact G3]].
    rewrite E1. now apply grown_insert.
  - inversion E; subst.
    apply fs_operation_inv in E1 as [[-> _]|[_ F]];
      [apply grown_refl|discriminate].
Qed.

Lemma touches_write_markdown f item :
  Spec.touches_only (eq f) (write_markdown env f item).
Proof.
  unfold write_markdown.
  repeat (apply touches_bind; [try apply touches_write|intros _]).
  - destruct (primary_keys item); [apply touches_ret|apply touches_write].
  - apply touches_for_each. intros col. apply touches_write.
  - destruct (indexes item); [apply touches_ret|].
    apply touches_bind; [apply touches_write|intros _].
    apply touches_for_each. intros idx. apply touches_write.
  - destruct (foreign_keys item); [apply touches_ret|].
    apply touches_bind; [apply touches_write|intros _].
    apply touches_for_each. intros fk. apply touches_write.
  - apply touches_write.
Qed.

(** The report writer, whether it returns or raises, changes no file but
    its two outputs; all else it does is create directories. *)
Lemma save_results_touches output_dir records :
  Spec.touches_only (fun p => p = Spec.jsonl_path output_dir
                         \/ p = Spec.markdown_path output_dir)
               (save_results env output_dir records).
Proof.
  unfold save_results.
  apply touches_bind.
  { intros h r h' E. inversion E. apply grown_refl. }
  intros timestamp.
  apply touches_bind.
  { eapply touches_weaken; [|apply touches_mkdir]. intros p []. }
  intros _. apply touches_bind.
  { eapply touches_weaken; [|apply touches_with_open_w].
    - intros p <-. now left.
    - apply touches_for_each. intros item. apply touches_write. }
  intros _. apply touches_bind.
  { eapply touches_weaken; [|apply touches_with_open_w].
    - intros p <-. now right.
    - apply touches_for_each. intros item. apply touches_write_markdown. }
  intros _. intros h r h' E.
  apply operation_inv in E as [(e & _ & _ & ->)|[_ E]]; [apply grown_refl|].
  destruct (markup_error env _); inversion E; apply grown_refl.
Qed.

(** *** The content of the two files *)

Lemma with_open_w_content p body text h h' :
  Spec.appends p (body p) text ->
  with_open_w env p body h = (Ok tt, h') ->
  files h' !! p = Some (File text).
Proof.
  intros Hb E. unfold with_open_w in E.
  destruct (fs_operation env (fun fs => Fs.create fs p) h)
    as [[[]|e] h1] eqn:E1; [|discriminate].
  apply fs_operation_inv in E1 as [[_ [e F]]|[E1 _]]; [discriminate|].
  apply create_inv in E1.
  destruct (body p h1) as [r2 h2] eqn:E2.
  destruct (operation env (fun _ h => (Ok tt, h)) h2)
    as [[[]|e] h3] eqn:E3; inversion E; subst.
  apply operation_inv in E3 as [(e & _ & F & _)|[_ E3]]; [discriminate|].
  inversion E3; subst.
  change (files (tick h2)) with (files h2).
  apply (Hb h1 h2 "" E2). rewrite E1. apply lookup_insert_eq.
Qed.

Lemma output_paths_differ output_dir :
  Spec.jsonl_path output_dir <> Spec.markdown_path output_dir.
Proof.
  unfold Spec.jsonl_path, Spec.markdown_path. intros E.
  apply app_inv_head in E. discriminate.
Qed.

(** When the report writer returns, each of its two files holds the text
    of the collection it was given. *)
Lemma save_results_content output_dir records h h' :
  save_results env output_dir records h = (Ok tt, h') ->
  files h' !! Spec.jsonl_path output_dir
    = Some (File (Spec.jsonl_text records))
  /\ files h' !! Spec.markdown_path output_dir
     = Some (File (Spec.markdown_text records)).
Proof.
  unfold save_results. intros E.
  apply bind_inv_ok in E as (timestamp & h1 & _ & E).
  apply bind_inv_ok in E as ([] & h2 & _ & E).
  apply bind_inv_ok in E as ([] & h3 & E3 & E).
  apply bind_inv_ok in E as ([] & h4 & E4 & E).
  assert (F : files h' = files h4).
  { apply operation_inv in E as [(e & _ & F & _)|[_ E]]; [discriminate|].
    destruct (markup_error env _); inversion E. reflexivity. }
  rewrite F.
  assert (J : files h3 !! Spec.jsonl_path output_dir
              = Some (File (Spec.jsonl_text records))).
  { eapply with_open_w_content; [|exact E3].
    apply appends_for_each. intros item. apply appends_write. }
  split.
  - assert (G : Spec.touches_only (eq (Spec.markdown_path output_dir))
                  (with_open_w env (Spec.markdown_path output_dir)
                     (fun f => for_each records (write_markdown env f)))).
    { apply touches_with_open_w, touches_for_each.
      intros item. apply touches_write_markdown. }
    destruct (G _ _ _ E4 (Spec.jsonl_path output_dir)) as [T|[S|[N _]]].
    + symmetry in T. now apply output_paths_differ in T.
    + now rewrite S.
    + rewrite J in N. discriminate.
  - eapply with_open_w_content; [|exact E4].
    apply appends_for_each. intros item. apply write_markdown_appends.
Qed.

End Frame.

(** ** Two runs of the report writer *)

(** C7.  After two runs of the report writer on the same directory, the
    second of which returns, [postgres_inventory.jsonl] and
    [postgres_inventory.md] hold the text of the second collection and
    nothing of the first, whatever the first run did; and no other file has
    been written, created or changed, so that no file bears the timestamp
    in its name: apart from the two outputs, directories may have been
    created and that is all. *)
Theorem second_run_overwrites env output_dir first second h0 r1 h1 h2 :
  save_results env output_dir first h0 = (r1, h1) ->
  save_results env output_dir second h1 = (Ok tt, h2) ->
  files h2 !! (output_dir ++ ["postgres_inventory.jsonl"])
    = Some (File (Spec.jsonl_text second))
  /\ files h2 !! (output_dir ++ ["postgres_inventory.md"])
     = Some (File (Spec.markdown_text second))
  /\ forall p,
       p <> output_dir ++ ["postgres_inventory.jsonl"] ->
       p <> output_dir ++ ["postgres_inventory.md"] ->
       files h2 !! p = files h0 !! p
       \/ (files h0 !! p = None /\ files h2 !! p = Some Dir).
Proof.
  intros E1 E2.
  destruct (save_results_content env _ _ _ _ E2) as [J M].
  split; [exact J|]. split; [exact M|].
  intros p Hj Hm.
  pose proof (grown_trans _ _ _ _
                (save_results_touches env _ _ _ _ _ E1)
                (save_results_touches env _ _ _ _ _ E2) p) as [[T|T]|G].
  - contradiction.
  - contradiction.
  - exact G.
Qed.

(** A run on the record of [users], then a run on another record. *)
Lemma second_run_overwrites_witness :
  exists r1 h1 h2,
    save_results Scenario.quiet ["output"] [Scenario.users_record]
                 Scenario.start = (r1, h1)
    /\ save_results Scenario.quiet ["output"] [Scenario.bare_record] h1
       = (Ok tt, h2)
    /\ files h2 !! ["output"; "postgres_inventory.jsonl"]
       = Some (File (Spec.jsonl_text [Scenario.bare_record]))
    /\ files h2 !! ["output"; "postgres_inventory.md"]
       = Some (File (Spec.markdown_text [Scenario.bare_record])).
Proof.
  do 3 eexists.
  split; [vm_compute; reflexivity|].
  split; [vm_compute; reflexivity|].
  refine ((fun H => conj (proj1 H) (proj1 (proj2 H)))
            (second_run_overwrites Scenario.quiet ["output"]
               [Scenario.users_record] [Scenario.bare_record]
               Scenario.start _ _ _ _ _)).
  - vm_compute. reflexivity.
  - vm_compute. reflexivity.
Defined.

(** ** The concrete scenario *)

(** C5.  One server, its one database [mydb] with the one table
    [public.users] (columns [id integer not null] and [name text null
    default NULL], primary key [id], no index, no foreign key), the version
    [PostgreSQL 15.2], the extension [pgcrypto], the estimate 42:
    [generate_doc] returns and [postgres_inventory.jsonl] is the one line of
    the design document.  It is so with or without [parallel], and whether
    or not [pg_database] also lists the administrative database [postgres],
    which holds no table. *)
Theorem concrete_scenario_jsonl :
  forall (parallel listed_postgres : bool),
    let env := Scenario.one_database
                 (if listed_postgres then Scenario.postgres_and_mydb
                  else Scenario.only_mydb) in
    let run := generate_doc env [Scenario.the_server] ["output"] parallel
                            Scenario.start in
    fst run = Ok tt
    /\ files (snd run) !! ["output"; "postgres_inventory.jsonl"]
       = Some (File (Scenario.expected_line +:+ nl)).
Proof.
  intros [] []; vm_compute; split; reflexivity.
Qed.

(** ** A null default and an empty default *)

Section Divergence.

Lemma append_cons c (s t : string) : String c s +:+ t = String c (s +:+ t).
Proof. reflexivity. Qed.

Lemma diverge_neq s s' : Spec.diverge s s' -> s <> s'.
Proof.
  intros (p & a & x & b & y & -> & -> & Hab).
  induction p as [|c p IH]; intros E.
  - inversion E. contradiction.
  - rewrite !append_cons in E. inversion E. contradiction.
Qed.

Lemma diverge_prefix p s s' :
  Spec.diverge s s' -> Spec.diverge (p +:+ s) (p +:+ s').
Proof.
  intros (q & a & x & b & y & -> & -> & Hab).
  exists (p +:+ q), a, x, b, y. now rewrite !append_assoc.
Qed.

Lemma diverge_suffix s s' t t' :
  Spec.diverge s s' -> Spec.diverge (s +:+ t) (s' +:+ t').
Proof.
  intros (q & a & x & b & y & -> & -> & Hab).
  exists q, a, (x +:+ t), b, (y +:+ t').
  now rewrite !append_assoc, !append_cons.
Qed.

Lemma diverge_empty s : ~ Spec.diverge "" s.
Proof.
  intros (p & a & x & b & y & E & _). destruct p; discriminate.
Qed.

(** The JSON of a row of [columns]: what comes before the default, the
    default, the closing brace. *)
Lemma column_json_split c :
  column_json c =
    Spec.column_json_before c
    +:+ Json.optional_str (column_default c) +:+ "}".
Proof.
  unfold column_json, Spec.column_json_before, Json.object, join.
  cbv [map String.concat fst snd].
  now rewrite !append_assoc.
Qed.

(** The JSON of a record: what comes before the columns, the columns,
    what comes after. *)
Lemma model_dump_json_split r :
  model_dump_json r =
    Spec.record_json_before r
    +:+ Json.array (map column_json (columns r))
    +:+ Spec.record_json_after r.
Proof.
  unfold model_dump_json, Spec.record_json_before, Spec.record_json_after,
    Json.object, join.
  cbv [map String.concat fst snd].
  now rewrite !append_assoc.
Qed.

Lemma same_but_default_cases c c' :
  Spec.same_but_default c c' ->
  c = c' \/ Spec.diverge (column_json c) (column_json c').
Proof.
  intros (Hn & Ht & Hl & Hd).
  assert (Hb : Spec.column_json_before c = Spec.column_json_before c')
    by (unfold Spec.column_json_before; now rewrite Hn, Ht, Hl).
  destruct Hd as [Hd|[[H1 H2]|[H1 H2]]].
  - left. destruct c, c'. simpl in *. congruence.
  - right. rewrite !column_json_split, Hb, H1, H2.
    apply diverge_prefix.
    exists "", "n"%char, "ull}", (ascii_of_nat 34), (dq +:+ "}").
    repeat split. discriminate.
  - right. rewrite !column_json_split, Hb, H1, H2.
    apply diverge_prefix.
    exists "", (ascii_of_nat 34), (dq +:+ "}"), "n"%char, "ull}".
    repeat split. discriminate.
Qed.

Lemma join_cons sep x y (l : list string) :
  join sep (x :: y :: l) = x +:+ sep +:+ join sep (y :: l).
Proof. reflexivity. Qed.

Lemma columns_cases cs cs' :
  Forall2 Spec.same_but_default cs cs' ->
  cs = cs'
  \/ Spec.diverge (join "," (map column_json cs))
                  (join "," (map column_json cs')).
Proof.
  induction 1 as [|c c' cs cs' Hc Hcs IH]; [now left|].
  destruct (same_but_default_cases _ _ Hc) as [<-|D].
  - destruct IH as [<-|D]; [now left|]. right.
    destruct Hcs as [|d d' cs cs' Hd Hcs].
    + now apply diverge_empty in D.
    + change (map column_json (c :: d :: cs))
        with (column_json c :: column_json d :: map column_json cs).
      change (map column_json (c :: d' :: cs'))
        with (column_json c :: column_json d' :: map column_json cs').
      rewrite !join_cons. now apply diverge_prefix, diverge_prefix.
  - right. destruct Hcs as [|d d' cs cs' Hd Hcs].
    + exact D.
    + change (map column_json (c :: d :: cs))
        with (column_json c :: column_json d :: map column_json cs).
      change (map column_json (c' :: d' :: cs'))
        with (column_json c' :: column_json d' :: map column_json cs').
      rewrite !join_cons. now apply diverge_suffix.
Qed.

Lemma same_but_defaults_cases r r' :
  Spec.same_but_defaults r r' ->
  r = r'
  \/ Spec.diverge (model_dump_json r +:+ nl) (model_dump_json r' +:+ nl).
Proof.
  intros (H1 & H2 & H3 & H4 & H5 & H6 & H7 & H8 & Hc & H10 & H11).
  assert (Hb : Spec.record_json_before r = Spec.record_json_before r')
    by (unfold Spec.record_json_before;
        now rewrite H1, H2, H3, H4, H5, H6, H7, H8).
  destruct (columns_cases _ _ Hc) as [E|D].
  - left. destruct r, r'. simpl in *. congruence.
  - right. rewrite !model_dump_json_split, Hb.
    unfold Json.array. rewrite !append_assoc.
    apply diverge_prefix, diverge_prefix. now apply diverge_suffix.
Qed.

Lemma collections_cases ms ms' :
  Forall2 Spec.same_but_defaults ms ms' ->
  ms = ms' \/ Spec.diverge (Spec.jsonl_text ms) (Spec.jsonl_text ms').
Proof.
  induction 1 as [|r r' ms ms' Hr Hms IH]; [now left|].
  change (Spec.jsonl_text (r :: ms))
    with ((model_dump_json r +:+ nl) +:+ Spec.jsonl_text ms).
  change (Spec.jsonl_text (r' :: ms'))
    with ((model_dump_json r' +:+ nl) +:+ Spec.jsonl_text ms').
  destruct (same_but_defaults_cases _ _ Hr) as [<-|D].
  - destruct IH as [<-|D]; [now left|]. right. now apply diverge_prefix.
  - right. now apply diverge_suffix.
Qed.

Lemma column_row_same c c' :
  Spec.same_but_default c c' -> Spec.column_row c = Spec.column_row c'.
Proof.
  intros (Hn & Ht & Hl & Hd). unfold Spec.column_row.
  rewrite Hn, Ht, Hl.
  destruct Hd as [->|[[-> ->]|[-> ->]]]; reflexivity.
Qed.

Lemma markdown_section_same r r' :
  Spec.same_but_defaults r r' ->
  Spec.markdown_section r = Spec.markdown_section r'.
Proof.
  intros (H1 & H2 & H3 & H4 & H5 & H6 & H7 & H8 & Hc & H10 & H11).
  unfold Spec.markdown_section, Spec.heading, Spec.primary_key_line,
    Spec.columns_table, Spec.indexes_section, Spec.foreign_keys_section.
  rewrite H1, H2, H3, H4, H5, H6, H7, H8, H10, H11.
  replace (map Spec.column_row (columns r))
    with (map Spec.column_row (columns r')); [reflexivity|].
  induction Hc as [|c c' cs cs' Hcc _ IH]; [reflexivity|].
  simpl. now rewrite IH, (column_row_same _ _ Hcc).
Qed.

Lemma markdown_text_same ms ms' :
  Forall2 Spec.same_but_defaults ms ms' ->
  Spec.markdown_text ms = Spec.markdown_text ms'.
Proof.
  induction 1 as [|r r' ms ms' Hr _ IH]; [reflexivity|].
  change (Spec.markdown_text (r :: ms))
    with (Spec.markdown_section r +:+ Spec.markdown_text ms).
  change (Spec.markdown_text (r' :: ms'))
    with (Spec.markdown_section r' +:+ Spec.markdown_text ms').
  now rewrite IH, (markdown_section_same _ _ Hr).
Qed.

End Divergence.

Section Occurrences.

Lemma occurs_refl s : Spec.occurs s s.
Proof. exists "", "". now rewrite append_nil_r. Qed.

Lemma occurs_inside s t a b :
  Spec.occurs s t -> Spec.occurs s (a +:+ t +:+ b).
Proof.
  intros (p & q & ->). exists (a +:+ p), (q +:+ b).
  now rewrite !append_assoc.
Qed.

Lemma occurs_trans s t u :
  Spec.occurs s t -> Spec.occurs t u -> Spec.occurs s u.
Proof. intros H (p & q & ->). now apply occurs_inside. Qed.

Lemma occurs_left s t b : Spec.occurs s t -> Spec.occurs s (t +:+ b).
Proof. intros H. now apply (occurs_inside s t "" b). Qed.

Lemma occurs_right s t a : Spec.occurs s t -> Spec.occurs s (a +:+ t).
Proof.
  intros H. rewrite <- (append_nil_r t). now apply occurs_inside.
Qed.

Lemma occurs_cat {A} (g : A -> string) (l : list A) x :
  In x l -> Spec.occurs (g x) (cat (map g l)).
Proof.
  induction l as [|y l IH]; [intros []|intros [<-|I]].
  - change (cat (map g (y :: l))) with (g y +:+ cat (map g l)).
    apply occurs_left, occurs_refl.
  - change (cat (map g (y :: l))) with (g y +:+ cat (map g l)).
    now apply occurs_right, IH.
Qed.

Lemma occurs_join sep (l : list string) x :
  In x l -> Spec.occurs x (join sep l).
Proof.
  induction l as [|y l IH]; [intros []|intros [<-|I]].
  - destruct l as [|z l]; [apply occurs_refl|].
    rewrite join_cons. apply occurs_left, occurs_refl.
  - destruct l as [|z l]; [destruct I|].
    rewrite join_cons. now apply occurs_right, occurs_right, IH.
Qed.

(** The row of a column is a part of the section of its record, and the
    section of a record a part of the Markdown text of its collection. *)
Lemma column_row_occurs ms r c :
  In r ms -> In c (columns r) ->
  Spec.occurs (Spec.column_row c) (Spec.markdown_text ms).
Proof.
  intros Ir Ic.
  apply (occurs_trans _ (Spec.markdown_section r));
    [|exact (occurs_cat Spec.markdown_section ms r Ir)].
  unfold Spec.markdown_section, Spec.columns_table.
  apply occurs_right, occurs_right, occurs_left, occurs_right.
  exact (occurs_cat Spec.column_row (columns r) c Ic).
Qed.

(** The JSON of a column is a part of the JSON of its record, and the
    JSON of a record a part of the JSONL text of its collection. *)
Lemma column_json_occurs ms r c :
  In r ms -> In c (columns r) ->
  Spec.occurs (column_json c) (Spec.jsonl_text ms).
Proof.
  intros Ir Ic.
  apply (occurs_trans _ (model_dump_json r)).
  - rewrite model_dump_json_split. unfold Json.array.
    apply occurs_right, occurs_left, occurs_right, occurs_left.
    apply occurs_join. now apply in_map.
  - apply (occurs_trans _ (model_dump_json r +:+ nl));
      [apply occurs_left, occurs_refl|].
    exact (occurs_cat (fun item => model_dump_json item +:+ nl) ms r Ir).
Qed.

End Occurrences.

(** C10.  In the table of columns a default that is null and a default that
    is the empty string both leave the Default cell empty.  So when two
    collections differ in nothing but column defaults that are null in one
    and the empty string in the other, the report writer leaves the same
    Markdown file for both and two different JSONL files, in which [null]
    and the empty string are told apart.  The Markdown file of a collection
    is the text of its sections, and for every column whose default is null
    or the empty string the row written in it ends with an empty Default
    cell; the JSONL file is the text of the JSON of its records, in which
    the default of such a column is written [null] when it is null and as
    the empty JSON string when it is the empty string. *)
Theorem null_and_empty_default env output_dir ms ms' h h1 h2 :
  Forall2 Spec.same_but_defaults ms ms' ->
  ms <> ms' ->
  save_results env output_dir ms h = (Ok tt, h1) ->
  save_results env output_dir ms' h = (Ok tt, h2) ->
  default_or_empty None = "" /\ default_or_empty (Some "") = ""
  /\ files h1 !! (output_dir ++ ["postgres_inventory.md"])
     = files h2 !! (output_dir ++ ["postgres_inventory.md"])
  /\ files h1 !! (output_dir ++ ["postgres_inventory.jsonl"])
     <> files h2 !! (output_dir ++ ["postgres_inventory.jsonl"])
  /\ (exists markdown jsonl jsonl',
        files h1 !! (output_dir ++ ["postgres_inventory.md"])
          = Some (File markdown)
        /\ files h2 !! (output_dir ++ ["postgres_inventory.md"])
           = Some (File markdown)
        /\ files h1 !! (output_dir ++ ["postgres_inventory.jsonl"])
           = Some (File jsonl)
        /\ files h2 !! (output_dir ++ ["postgres_inventory.jsonl"])
           = Some (File jsonl')
        /\ markdown = Spec.markdown_text ms
        /\ jsonl = Spec.jsonl_text ms
        /\ jsonl' = Spec.jsonl_text ms'
        /\ (forall records r c,
              records = ms \/ records = ms' ->
              In r records -> In c (columns r) ->
              column_default c = None \/ column_default c = Some "" ->
              Spec.occurs
                ("| " +:+ column_name c +:+ " | " +:+ data_type c +:+ " | "
                 +:+ is_nullable c +:+ " | " +:+ "" +:+ " |" +:+ nl)
                markdown)
        /\ (forall r c,
              In r ms -> In c (columns r) ->
              Spec.occurs
                (Spec.column_json_before c
                 +:+ match column_default c with
                     | None => "null"
                     | Some s => Json.str s
                     end +:+ "}")
                jsonl)
        /\ (forall r c,
              In r ms' -> In c (columns r) ->
              Spec.occurs
                (Spec.column_json_before c
                 +:+ match column_default c with
                     | None => "null"
                     | Some s => Json.str s
                     end +:+ "}")
                jsonl')
        /\ Json.str "" = dq +:+ dq).
Proof.
  intros Hs Hne E1 E2.
  destruct (save_results_content env _ _ _ _ E1) as [J1 M1].
  destruct (save_results_content env _ _ _ _ E2) as [J2 M2].
  unfold Spec.jsonl_path, Spec.markdown_path in *.
  pose proof (markdown_text_same _ _ Hs) as Hmd.
  split; [reflexivity|]. split; [reflexivity|]. split; [|split].
  - rewrite M1, M2. now rewrite Hmd.
  - rewrite J1, J2. intros E. inversion E as [E'].
    destruct (collections_cases _ _ Hs) as [?|D]; [contradiction|].
    exact (diverge_neq _ _ D E').
  - exists (Spec.markdown_text ms), (Spec.jsonl_text ms),
      (Spec.jsonl_text ms').
    split; [exact M1|]. split; [now rewrite Hmd|].
    split; [exact J1|]. split; [exact J2|].
    split; [reflexivity|]. split; [reflexivity|]. split; [reflexivity|].
    split; [|split; [|split; [|reflexivity]]].
    + intros records r c Hr Ir Ic Hd.
      assert (Hrow : Spec.column_row c =
                "| " +:+ column_name c +:+ " | " +:+ data_type c +:+ " | "
                +:+ is_nullable c +:+ " | " +:+ "" +:+ " |" +:+ nl).
      { unfold Spec.column_row. destruct Hd as [->| ->]; reflexivity. }
      rewrite <- Hrow.
      destruct Hr as [->| ->]; [|rewrite Hmd];
        now apply (column_row_occurs _ r c).
    + intros r c Ir Ic.
      change (match column_default c with
              | None => "null"
              | Some s => Json.str s
              end) with (Json.optional_str (column_default c)).
      rewrite <- column_json_split. now apply (column_json_occurs _ r c).
    + intros r c Ir Ic.
      change (match column_default c with
              | None => "null"
              | Some s => Json.str s
              end) with (Json.optional_str (column_default c)).
      rewrite <- column_json_split. now apply (column_json_occurs _ r c).
Qed.

(** For the two records of [notes], one with a null default and one with
    an empty default: the row of the column [body] ends with an empty cell
    in the one Markdown text of both. *)
Lemma null_and_empty_default_witness :
  exists h1 h2,
    save_results Scenario.quiet ["output"] [Scenario.note_record None]
                 Scenario.start = (Ok tt, h1)
    /\ save_results Scenario.quiet ["output"]
                    [Scenario.note_record (Some "")] Scenario.start
       = (Ok tt, h2)
    /\ files h1 !! ["output"; "postgres_inventory.md"]
       = files h2 !! ["output"; "postgres_inventory.md"]
    /\ files h1 !! ["output"; "postgres_inventory.jsonl"]
       <> files h2 !! ["output"; "postgres_inventory.jsonl"]
    /\ exists markdown,
         files h1 !! ["output"; "postgres_inventory.md"]
           = Some (File markdown)
         /\ Spec.occurs ("| body | text | YES |  |" +:+ nl) markdown.
Proof.
  exists (snd (save_results Scenario.quiet ["output"]
                 [Scenario.note_record None] Scenario.start)),
    (snd (save_results Scenario.quiet ["output"]
            [Scenario.note_record (Some "")] Scenario.start)).
  assert (E1 : save_results Scenario.quiet ["output"]
                 [Scenario.note_record None] Scenario.start
               = (Ok tt,
                  snd (save_results Scenario.quiet ["output"]
                         [Scenario.note_record None] Scenario.start)))
    by (vm_compute; reflexivity).
  assert (E2 : save_results Scenario.quiet ["output"]
                 [Scenario.note_record (Some "")] Scenario.start
               = (Ok tt,
                  snd (save_results Scenario.quiet ["output"]
                         [Scenario.note_record (Some "")] Scenario.start)))
    by (vm_compute; reflexivity).
  assert (Hs : Forall2 Spec.same_but_defaults [Scenario.note_record None]
                 [Scenario.note_record (Some "")]).
  { constructor; [|constructor].
    repeat split; try reflexivity.
    constructor; [|constructor].
    repeat split; try reflexivity. right. left. split; reflexivity. }
  assert (Hne : [Scenario.note_record None]
                <> [Scenario.note_record (Some "")]) by discriminate.
  destruct (null_and_empty_default _ _ _ _ _ _ _ Hs Hne E1 E2)
    as (_ & _ & Hmd & Hjs & markdown & jsonl & jsonl' & F1 & _ & _ & _
        & _ & _ & _ & Hrow & _).
  split; [exact E1|]. split; [exact E2|].
  split; [exact Hmd|]. split; [exact Hjs|].
  exists markdown. split; [exact F1|].
  apply (Hrow [Scenario.note_record None] (Scenario.note_record None)
           {| column_name := "body"; data_type := "text";
              is_nullable := "YES"; column_default := None |});
    now left.
Defined.

(** * Beyond the design document *)

(** ** What a scan leaves alone *)

Section Silence.

Variable env : Env.

Lemma keeps_ret {S A} (R : S -> S -> Prop) (a : A) :
  (forall s, R s s) -> Effects.keeps R (ret a).
Proof. intros Hr s r s' E. inversion E. apply Hr. Qed.

Lemma keeps_bind {S A B} (R : S -> S -> Prop) (m : M S A) (k : A -> M S B) :
  (forall s1 s2 s3, R s1 s2 -> R s2 s3 -> R s1 s3) ->
  Effects.keeps R m -> (forall a, Effects.keeps R (k a)) ->
  Effects.keeps R (bind m k).
Proof.
  intros Ht Hm Hk s r s' E.
  apply bind_inv in E as [(a & s1 & E1 & E2)|(e & E1 & _)].
  - eapply Ht; [eapply Hm|eapply Hk]; eassumption.
  - eapply Hm; eassumption.
Qed.

Lemma keeps_for_each {S A} (R : S -> S -> Prop) (l : list A) body :
  (forall s, R s s) ->
  (forall s1 s2 s3, R s1 s2 -> R s2 s3 -> R s1 s3) ->
  (forall x, Effects.keeps R (body x)) ->
  Effects.keeps R (for_each l body).
Proof.
  intros Hr Ht Hb. induction l as [|x l IH]; simpl.
  - now apply keeps_ret.
  - apply keeps_bind; [exact Ht|apply Hb|intros _; exact IH].
Qed.

Lemma silent_refl h : Effects.silent h h.
Proof. repeat split. Qed.

Lemma silent_trans h1 h2 h3 :
  Effects.silent h1 h2 -> Effects.silent h2 h3 -> Effects.silent h1 h3.
Proof.
  intros (F1 & C1 & L1) (F2 & C2 & L2). repeat split; congruence.
Qed.

Lemma frame_silent_refl st : Effects.frame_silent st st.
Proof. apply silent_refl. Qed.

Lemma frame_silent_trans s1 s2 s3 :
  Effects.frame_silent s1 s2 -> Effects.frame_silent s2 s3 ->
  Effects.frame_silent s1 s3.
Proof. apply silent_trans. Qed.

Lemma operation_silent {A} (act : nat -> M Process A) :
  (forall t, Effects.keeps Effects.silent (act t)) ->
  Effects.keeps Effects.silent (operation env act).
Proof.
  intros Ha h r h' E.
  apply operation_inv in E as [(e & _ & _ & ->)|[_ E]].
  - repeat split.
  - apply (silent_trans _ (tick h)); [repeat split|].
    eapply Ha. exact E.
Qed.

Lemma connect_silent s dbname :
  Effects.keeps Effects.silent (connect env s dbname).
Proof.
  apply operation_silent. intros t h r h' E.
  destruct (accepts env s dbname t); inversion E; repeat split.
Qed.

Lemma cursor_silent c : Effects.keeps Effects.silent (cursor c).
Proof.
  intros h r h' E. unfold cursor in E.
  destruct (bool_decide (conn_id c ∈ closed h)); inversion E; repeat split.
Qed.

Lemma execute_silent {R} cur (q : Database -> Result (list R)) :
  Effects.keeps Effects.silent (execute env cur q).
Proof.
  intros h r h' E. apply execute_inv in E as [-> _]. repeat split.
Qed.

Lemma close_silent c : Effects.keeps Effects.silent (close env c).
Proof.
  apply operation_silent. intros t h r h' E. inversion E. repeat split.
Qed.

Lemma in_frame_silent {A} (m : M Process A) :
  Effects.keeps Effects.silent m ->
  Effects.keeps Effects.frame_silent (in_frame m).
Proof.
  intros Hm st r st' E. apply in_frame_inv in E as [E _].
  eapply Hm. exact E.
Qed.

Lemma subscript_silent {A} (row : option A) :
  Effects.keeps Effects.frame_silent (subscript row).
Proof.
  intros st r st' E. apply subscript_inv in E as [-> _].
  apply frame_silent_refl.
Qed.

Ltac silent_steps :=
  repeat (apply keeps_bind;
          [exact frame_silent_trans
          |first [apply in_frame_silent;
                  first [apply execute_silent|apply connect_silent
                        |apply cursor_silent|apply close_silent]
                 |apply subscript_silent]
          |intros ?]).

Lemma table_body_silent server db cur v x t :
  Effects.keeps Effects.frame_silent (table_body env server db cur v x t).
Proof.
  unfold table_body. silent_steps.
  intros st r st' E. inversion E. repeat split.
Qed.

Lemma database_body_silent server db :
  Effects.keeps Effects.frame_silent (database_body env server db).
Proof.
  unfold database_body.
  apply keeps_bind; [exact frame_silent_trans| |].
  - unfold open_database. silent_steps.
    apply keeps_ret, frame_silent_refl.
  - intros [[[[db_conn db_cur] v] x] tables].
    apply keeps_bind; [exact frame_silent_trans| |intros _].
    + apply keeps_for_each;
        [exact frame_silent_refl|exact frame_silent_trans|].
      intros t. apply table_body_silent.
    + apply in_frame_silent, close_silent.
Qed.

Lemma try_block_silent server :
  Effects.keeps Effects.frame_silent (try_block env server).
Proof.
  unfold try_block.
  apply keeps_bind; [exact frame_silent_trans| |].
  - unfold list_databases. silent_steps.
    apply keeps_ret, frame_silent_refl.
  - intros [conn dbs].
    apply keeps_bind; [exact frame_silent_trans| |intros _].
    + apply keeps_for_each;
        [exact frame_silent_refl|exact frame_silent_trans|].
      intros db. apply database_body_silent.
    + apply in_frame_silent, close_silent.
Qed.

End Silence.

(** X1.  A scan writes no file and prints nothing on the console, and all
    it adds to the log is, when its [try] block raises, the one entry of
    its handler. *)
Theorem scan_writes_nothing env srv h :
  files (snd (connect_and_fetch env srv h)) = files h
  /\ console (snd (connect_and_fetch env srv h)) = console h
  /\ (logged (snd (connect_and_fetch env srv h)) = logged h
      \/ exists e,
           logged (snd (connect_and_fetch env srv h))
           = logged h ++ [scan_error_message srv e]).
Proof.
  unfold connect_and_fetch.
  destruct (try_block env srv (new_frame h)) as [[u|e] st] eqn:T;
    destruct (try_block_silent env _ _ _ _ T) as (F & C & L);
    simpl in *; repeat split; auto.
  right. exists e. now rewrite L.
Qed.

(** X2.  A scan that logs nothing has closed every connection it opened:
    the administrative one and one per database, the administrative one
    last. *)
Theorem quiet_scan_closes_connections env srv h records h' :
  connect_and_fetch env srv h = (Ok records, h') ->
  logged h' = logged h ->
  exists conn others,
    opened h' = opened h ++ conn :: others
    /\ closed h' = closed h ++ map conn_id others ++ [conn_id conn].
Proof.
  unfold connect_and_fetch. intros E L.
  destruct (try_block env srv (new_frame h)) as [[[]|e] st] eqn:T;
    inversion E; subst.
  - exact (try_block_closes_on_return env _ _ _ T).
  - destruct (try_block_silent env _ _ _ _ T) as (_ & _ & L').
    simpl in L, L'. rewrite L' in L.
    apply (f_equal (@length string)) in L.
    rewrite length_app in L. simpl in L. lia.
Qed.

(** In the scenario of the two tables [users], where nothing fails. *)
Lemma quiet_scan_closes_connections_witness :
  exists records h' conn others,
    connect_and_fetch Scenario.two_users Scenario.the_server Scenario.start
      = (Ok records, h')
    /\ opened h' = conn :: others
    /\ closed h' = map conn_id others ++ [conn_id conn].
Proof.
  eassert (E : connect_and_fetch Scenario.two_users Scenario.the_server
                                 Scenario.start = (Ok _, _))
    by (vm_compute; reflexivity).
  destruct (quiet_scan_closes_connections _ _ _ _ _ E eq_refl)
    as (conn & others & O & C).
  do 2 eexists. exists conn, others.
  split; [exact E|]. split; [exact O|exact C].
Defined.

(** ** Where the records come from *)

Section Provenance.

Variable env : Env.

Lemma key_of_record srv db v x row pks cols idx fks (t : string * string) :
  Effects.key {| server := srv; database := db; schema := fst t;
                 table := snd t; postgres_version := v; extensions := x;
                 rowcount := row; primary_keys := pks; columns := cols;
                 indexes := idx; foreign_keys := fks |} = t.
Proof. destruct t. reflexivity. Qed.

(** The table loop appends one record per table, in the order of the
    list, up to the table whose body raises. *)
Lemma table_loop_keys srv db cur v x tables st r st' :
  for_each tables (table_body env srv db cur v x) st = (r, st') ->
  exists block,
    metadata st' = metadata st ++ block
    /\ Forall (fun rec => server rec = server_name srv
                          /\ database rec = db) block
    /\ match r with
       | Ok _ => map Effects.key block = tables
       | Raise _ => exists rest, tables = map Effects.key block ++ rest
       end.
Proof.
  revert st. induction tables as [|t tables IH]; intros st E.
  - inversion E; subst. exists [].
    split; [now rewrite app_nil_r|]. split; [constructor|reflexivity].
  - simpl in E.
    apply bind_inv in E as [([] & s1 & E1 & E)|(e & E1 & ->)].
    + apply table_body_inv in E1 as (row & cols & pks & idx & fks & _ & M1).
      apply IH in E as (block & M & F & K).
      eexists (_ :: block). split; [|split].
      * rewrite M, M1, <- app_assoc. reflexivity.
      * constructor; [split; reflexivity|exact F].
      * destruct r as [u|e].
        -- simpl. rewrite key_of_record. now f_equal.
        -- destruct K as [rest K]. exists rest.
           simpl. rewrite key_of_record. now f_equal.
    + apply table_body_inv in E1. exists [].
      split; [now rewrite app_nil_r|]. split; [constructor|].
      now exists (t :: tables).
Qed.

(** The tables that a visit iterates over are the rows of
    [information_schema.tables] outside the two system schemas, as the
    connection to the database saw them. *)
Lemma open_database_tables srv db st db_conn db_cur v x tables st' :
  open_database env srv db st = (Ok (db_conn, db_cur, v, x, tables), st')
  -> exists t, tables = Effects.user_tables (catalog env srv db t).
Proof.
  unfold open_database. intros E.
  apply bind_inv_ok in E as (c & s1 & E1 & E).
  apply in_frame_inv in E1 as [E1 _].
  apply connect_inv in E1 as [Hs Hd].
  apply bind_inv_ok in E as (cur & s2 & E2 & E).
  apply in_frame_inv in E2 as [E2 _].
  apply cursor_inv in E2 as [-> _].
  apply bind_inv_ok in E as (rows & s3 & _ & E).
  apply bind_inv_ok in E as (ver & s4 & _ & E).
  apply bind_inv_ok in E as (exts & s5 & _ & E).
  apply bind_inv_ok in E as (ts & s6 & E6 & E).
  apply framed_execute_inv in E6 as (_ & _ & Q).
  specialize (Q ts eq_refl). rewrite Hs, Hd in Q.
  inversion E; subst. inversion Q. eauto.
Qed.

Lemma database_body_keys srv db st r st' :
  database_body env srv db st = (r, st') ->
  exists block,
    metadata st' = metadata st ++ block
    /\ Forall (fun rec => server rec = server_name srv
                          /\ database rec = db) block
    /\ (block = []
        \/ exists t rest,
             Effects.user_tables (catalog env srv db t)
             = map Effects.key block ++ rest)
    /\ (r = Ok tt ->
        exists t,
          Effects.user_tables (catalog env srv db t)
          = map Effects.key block).
Proof.
  unfold database_body. intros E.
  apply bind_inv in E as [(found & s1 & E1 & E)|(e & E1 & ->)].
  - destruct found as [[[[db_conn db_cur] v] x] tables].
    pose proof (open_database_inv env _ _ _ _ _ E1) as M1.
    apply open_database_tables in E1 as [t ->].
    apply bind_inv in E as [([] & s2 & E2 & E)|(e & E2 & ->)];
      apply table_loop_keys in E2 as (block & M2 & F & K).
    + apply in_frame_inv in E as [E M3].
      exists block. split; [congruence|]. split; [exact F|]. split.
      * right. exists t, []. now rewrite app_nil_r.
      * intros _. now exists t.
    + exists block. split; [congruence|]. split; [exact F|]. split.
      * right. destruct K as [rest K]. now exists t, rest.
      * discriminate.
  - apply open_database_inv in E1. exists [].
    split; [now rewrite app_nil_r|]. split; [constructor|].
    split; [now left|discriminate].
Qed.

End Provenance.

(** X3.  The records that the visit of a database appends are records of
    that server and database, one per table and in the order in which
    [information_schema.tables] lists the tables outside [pg_catalog] and
    [information_schema]: all of them when the visit returns, those before
    the failing table when it raises. *)
Theorem database_records_follow_tables env srv db st r st' :
  database_body env srv db st = (r, st') ->
  exists block,
    metadata st' = metadata st ++ block
    /\ Forall (fun rec => server rec = host srv +:+ ":" +:+ str_int (port srv)
                          /\ database rec = db) block
    /\ (block = []
        \/ exists t rest,
             Effects.user_tables (catalog env srv db t)
             = map Effects.key block ++ rest)
    /\ (r = Ok tt ->
        exists t,
          Effects.user_tables (catalog env srv db t)
          = map Effects.key block).
Proof.
  intros E.
  destruct (database_body_keys env _ _ _ _ _ E) as (block & M & F & P & K).
  exists block. split; [exact M|]. split; [exact F|].
  split; [exact P|exact K].
Qed.

(** The visit of [shop] in the scenario where [Orders] does not resolve:
    one record, of the table listed first. *)
Lemma database_records_follow_tables_witness :
  exists r st' block rest,
    database_body Scenario.orders_unresolved Scenario.the_server "shop"
                  (new_frame Scenario.start) = (r, st')
    /\ metadata st' = block
    /\ map Effects.key block = [("public", "items")]
    /\ Effects.user_tables
         (catalog Scenario.orders_unresolved Scenario.the_server "shop" 0%nat)
       = map Effects.key block ++ rest.
Proof.
  eassert (E : database_body Scenario.orders_unresolved Scenario.the_server
                             "shop" (new_frame Scenario.start) = (_, _))
    by (vm_compute; reflexivity).
  destruct (database_records_follow_tables _ _ _ _ _ _ E)
    as (block & M & _ & _ & _).
  do 2 eexists.
  exists block, [("public", "Orders"); ("public", "customers")].
  split; [exact E|]. split; [exact M|].
  simpl in M. subst block. split; vm_compute; reflexivity.
Defined.

Section Listing.

Variable env : Env.

Lemma database_loop_records srv dbs st r st' :
  for_each dbs (database_body env srv) st = (r, st') ->
  exists block,
    metadata st' = metadata st ++ block
    /\ Forall (fun rec => In (database rec) dbs /\ Effects.listed env srv rec) block.
Proof.
  revert st. induction dbs as [|db dbs IH]; intros st E.
  - inversion E; subst. exists [].
    split; [now rewrite app_nil_r|constructor].
  - simpl in E.
    assert (Hdb : forall s s1 r1, database_body env srv db s = (r1, s1) ->
              exists block,
                metadata s1 = metadata s ++ block
                /\ Forall (fun rec => In (database rec) (db :: dbs)
                                      /\ Effects.listed env srv rec) block).
    { intros s s1 r1 E1.
      apply database_body_keys in E1 as (block & M1 & F1 & P1 & _).
      exists block. split; [exact M1|].
      apply List.Forall_forall. intros rec I.
      rewrite List.Forall_forall in F1.
      destruct (F1 rec I) as [Hs Hd]. split; [now left|].
      split; [exact Hs|].
      destruct P1 as [->|(t & rest & P1)]; [destruct I|].
      exists t. rewrite Hd, P1. apply in_or_app. left.
      now apply in_map. }
    apply bind_inv in E as [([] & s1 & E1 & E)|(e & E1 & ->)].
    + apply Hdb in E1 as (block & M1 & F1).
      apply IH in E as (rest & M & F).
      exists (block ++ rest). split.
      * rewrite M, M1, <- app_assoc. reflexivity.
      * apply List.Forall_app. split; [exact F1|].
        eapply List.Forall_impl; [|exact F].
        intros rec [I L]. split; [now right|exact L].
    + now apply Hdb in E1.
Qed.

Lemma try_block_records srv h r st :
  try_block env srv (new_frame h) = (r, st) ->
  Forall (fun rec =>
            Effects.listed env srv rec
            /\ exists t, In (database rec, false)
                            (pg_database (catalog env srv "postgres" t)))
         (metadata st).
Proof.
  unfold try_block. intros E.
  apply bind_inv in E as [([conn dbs] & s1 & E1 & E)|(e & E1 & ->)].
  - apply list_databases_inv in E1 as (M1 & t & ->).
    assert (F : exists block,
               metadata st = block
               /\ Forall (fun rec =>
                     In (database rec)
                        (map fst (List.filter (fun r => negb (snd r))
                           (pg_database (catalog env srv "postgres" t))))
                     /\ Effects.listed env srv rec) block).
    { apply bind_inv in E as [([] & s2 & E2 & E)|(e & E2 & ->)];
        apply database_loop_records in E2 as (block & M2 & F).
      - apply in_frame_inv in E as [_ M3].
        exists block. split; [|exact F]. rewrite M3, M2, M1. reflexivity.
      - exists block. split; [|exact F]. rewrite M2, M1. reflexivity. }
    destruct F as (block & -> & F).
    eapply List.Forall_impl; [|exact F].
    intros rec [I L]. split; [exact L|]. exists t.
    apply in_map_iff in I as ([name template] & Hn & I).
    apply filter_In in I as [I Ht]. simpl in Hn, Ht. subst name.
    destruct template; [discriminate|exact I].
  - apply list_databases_metadata in E1. rewrite E1. constructor.
Qed.

End Listing.

(** X4.  Every record that a scan returns bears the [host:port] of the
    server that was scanned, the name of a database that [pg_database]
    listed as not a template, and the schema and name of a table that
    [information_schema.tables] of that database listed; its schema is
    neither [pg_catalog] nor [information_schema]. *)
Theorem records_are_of_listed_tables env srv h records h' :
  connect_and_fetch env srv h = (Ok records, h') ->
  forall r, In r records ->
    server r = host srv +:+ ":" +:+ str_int (port srv)
    /\ (exists t, In (database r, false)
                     (pg_database (catalog env srv "postgres" t)))
    /\ (exists t, In (schema r, table r)
                     (information_schema_tables
                        (catalog env srv (database r) t)))
    /\ schema r <> "pg_catalog"
    /\ schema r <> "information_schema".
Proof.
  unfold connect_and_fetch. intros E r I.
  assert (F : Forall (fun rec =>
                Effects.listed env srv rec
                /\ exists t, In (database rec, false)
                                (pg_database (catalog env srv "postgres" t)))
                     records).
  { destruct (try_block env srv (new_frame h)) as [[u|e] st] eqn:T;
      inversion E; subst; exact (try_block_records env _ _ _ _ T). }
  rewrite List.Forall_forall in F.
  destruct (F r I) as [[Hs [t Hk]] Hd].
  split; [exact Hs|]. split; [exact Hd|].
  apply filter_In in Hk as [Hk Hf]. unfold Effects.key in Hk, Hf.
  simpl in Hf. apply negb_true_iff, orb_false_iff in Hf as [H1 H2].
  apply String.eqb_neq in H1, H2. eauto.
Qed.

(** In the scenario of the two tables [users]. *)
Lemma records_are_of_listed_tables_witness :
  exists records h',
    connect_and_fetch Scenario.two_users Scenario.the_server Scenario.start
      = (Ok records, h')
    /\ length records = 2%nat
    /\ forall r, In r records ->
         server r = "host:5432" /\ schema r <> "pg_catalog".
Proof.
  eassert (E : connect_and_fetch Scenario.two_users Scenario.the_server
                                 Scenario.start = (Ok _, _))
    by (vm_compute; reflexivity).
  do 2 eexists.
  split; [exact E|]. split; [reflexivity|].
  intros r I.
  destruct (records_are_of_listed_tables _ _ _ _ _ E r I)
    as (Hs & _ & _ & Hp & _).
  split; [exact Hs|exact Hp].
Defined.

(** X5.  A server on which [pg_database] lists nothing but templates
    contributes no record, whatever else happens in the scan. *)
Theorem only_templates_no_record env srv h :
  (forall t row,
      In row (pg_database (catalog env srv "postgres" t)) ->
      snd row = true) ->
  fst (connect_and_fetch env srv h) = Ok [].
Proof.
  intros Ht. unfold connect_and_fetch.
  destruct (try_block env srv (new_frame h)) as [[u|e] st] eqn:T; simpl;
    f_equal; pose proof (try_block_records env _ _ _ _ T) as F;
    (destruct (metadata st) as [|rec l]; [reflexivity|]);
    apply List.Forall_inv in F as [_ [t I]];
    apply Ht in I; discriminate.
Qed.

Lemma only_templates_no_record_witness :
  fst (connect_and_fetch Cases.only_templates Scenario.the_server
                         Scenario.start) = Ok []
  /\ logged (snd (connect_and_fetch Cases.only_templates Scenario.the_server
                                    Scenario.start)) = [].
Proof.
  split; [|vm_compute; reflexivity].
  apply only_templates_no_record.
  intros t row I. simpl in I.
  destruct I as [<-|[<-|[]]]; reflexivity.
Defined.

(** ** The lines of the JSONL file *)

Section JsonLines.

Lemma control_free_app (a b : string) :
  Lines.control_free (a +:+ b)
  = Lines.control_free a && Lines.control_free b.
Proof.
  induction a as [|c a IH]; [reflexivity|].
  rewrite append_cons. simpl. rewrite IH. now rewrite andb_assoc.
Qed.

Lemma escape_char_control_free c :
  Lines.control_free (Json.escape_char c) = true.
Proof.
  destruct c as [[] [] [] [] [] [] [] []]; reflexivity.
Qed.

Lemma escape_control_free s : Lines.control_free (Json.escape s) = true.
Proof.
  induction s as [|c s IH]; [reflexivity|].
  simpl. now rewrite control_free_app, escape_char_control_free, IH.
Qed.

Lemma str_control_free s : Lines.control_free (Json.str s) = true.
Proof.
  unfold Json.str. now rewrite !control_free_app, escape_control_free.
Qed.

Lemma uint_control_free (u : Decimal.uint) :
  Lines.control_free (NilEmpty.string_of_uint u) = true.
Proof. induction u; simpl; auto. Qed.

Lemma int_control_free n : Lines.control_free (Json.int n) = true.
Proof.
  unfold Json.int, str_int, NilZero.string_of_int.
  assert (H : forall u, Lines.control_free (NilZero.string_of_uint u) = true).
  { intros u. unfold NilZero.string_of_uint.
    destruct u; try reflexivity; apply (uint_control_free (_ u)). }
  destruct (Z.to_int n) as [u|u]; [apply H|].
  simpl. apply H.
Qed.

Lemma join_control_free sep (l : list string) :
  Lines.control_free sep = true ->
  Forall (fun s => Lines.control_free s = true) l ->
  Lines.control_free (join sep l) = true.
Proof.
  intros Hs. induction 1 as [|x l Hx Hl IH]; [reflexivity|].
  destruct l as [|y l]; [exact Hx|].
  rewrite join_cons, !control_free_app, Hx, Hs. exact IH.
Qed.

Lemma array_control_free (l : list string) :
  Forall (fun s => Lines.control_free s = true) l ->
  Lines.control_free (Json.array l) = true.
Proof.
  intros H. unfold Json.array.
  now rewrite !control_free_app, (join_control_free "," l eq_refl H).
Qed.

Lemma strings_control_free (l : list string) :
  Forall (fun s => Lines.control_free s = true) (map Json.str l).
Proof.
  apply List.Forall_forall. intros s I.
  apply in_map_iff in I as (x & <- & _). apply str_control_free.
Qed.

Lemma object_control_free (members : list (string * string)) :
  Forall (fun m => Lines.control_free (snd m) = true) members ->
  Lines.control_free (Json.object members) = true.
Proof.
  intros H. unfold Json.object.
  rewrite !control_free_app, join_control_free; [reflexivity..|].
  apply List.Forall_forall. intros s I.
  apply in_map_iff in I as (m & <- & I).
  rewrite List.Forall_forall in H.
  now rewrite !control_free_app, str_control_free, (H m I).
Qed.

Lemma column_json_control_free col :
  Lines.control_free (column_json col) = true.
Proof.
  unfold column_json. apply object_control_free.
  repeat constructor; simpl; try apply str_control_free.
  destruct (column_default col); [apply str_control_free|reflexivity].
Qed.

(** The JSON of a record holds no control character, whatever its
    strings hold. *)
Lemma model_dump_json_control_free item :
  Lines.control_free (model_dump_json item) = true.
Proof.
  unfold model_dump_json. apply object_control_free.
  repeat constructor; simpl;
    try apply str_control_free; try apply int_control_free;
    try (apply array_control_free, strings_control_free).
  apply array_control_free, List.Forall_forall. intros s I.
  apply in_map_iff in I as (c & <- & _). apply column_json_control_free.
Qed.

Lemma lines_cons (s rest : string) :
  Lines.control_free s = true ->
  Lines.lines (s +:+ nl +:+ rest) = s :: Lines.lines rest.
Proof.
  induction s as [|c s IH]; intros H; [reflexivity|].
  simpl in H. apply andb_true_iff in H as [Hc Hs].
  rewrite append_cons. simpl. rewrite (IH Hs).
  destruct (Nat.eqb_spec (nat_of_ascii c) 10) as [E|_]; [|reflexivity].
  rewrite E in Hc. discriminate.
Qed.

Lemma lines_jsonl_text records :
  Lines.lines (Spec.jsonl_text records) = map model_dump_json records.
Proof.
  induction records as [|item records IH]; [reflexivity|].
  change (Spec.jsonl_text (item :: records))
    with ((model_dump_json item +:+ nl) +:+ Spec.jsonl_text records).
  rewrite append_assoc, lines_cons, IH;
    [reflexivity|apply model_dump_json_control_free].
Qed.

End JsonLines.

(** X6.  When the report writer returns, [postgres_inventory.jsonl] has
    one line per record, in the order of the collection, and the line of a
    record is its JSON: no string of a record, whatever characters it
    holds, breaks a line, since the JSON of a record holds no control
    character. *)
Theorem jsonl_one_line_per_record env output_dir records h h' :
  save_results env output_dir records h = (Ok tt, h') ->
  exists text,
    files h' !! (output_dir ++ ["postgres_inventory.jsonl"])
      = Some (File text)
    /\ Lines.lines text = map model_dump_json records
    /\ Forall (fun line => Lines.control_free line = true)
              (Lines.lines text).
Proof.
  intros E.
  destruct (save_results_content env _ _ _ _ E) as [J _].
  exists (Spec.jsonl_text records). split; [exact J|].
  rewrite lines_jsonl_text. split; [reflexivity|].
  apply List.Forall_forall. intros line I.
  apply in_map_iff in I as (item & <- & _).
  apply model_dump_json_control_free.
Qed.

(** For a record whose column default holds a line feed. *)
Lemma jsonl_one_line_per_record_witness :
  exists h' text,
    save_results Scenario.quiet ["output"]
                 [Scenario.bare_record; Cases.two_line_default]
                 Scenario.start = (Ok tt, h')
    /\ files h' !! ["output"; "postgres_inventory.jsonl"] = Some (File text)
    /\ length (Lines.lines text) = 2%nat.
Proof.
  eassert (E : save_results Scenario.quiet ["output"]
                 [Scenario.bare_record; Cases.two_line_default]
                 Scenario.start = (Ok tt, _))
    by (vm_compute; reflexivity).
  destruct (jsonl_one_line_per_record _ _ _ _ _ E) as (text & F & L & _).
  eexists. exists text. split; [exact E|]. split; [exact F|].
  rewrite L. reflexivity.
Defined.

(** ** A file in the way of the output directory *)

Lemma mkdir_from_blocked fs done before name after content :
  fs !! (done ++ before ++ [name]) = Some (File content) ->
  exists e, Fs.mkdir_from fs done (before ++ name :: after) = Raise e.
Proof.
  revert fs done. induction before as [|x before IH]; intros fs done F.
  - simpl in *. rewrite F. eauto.
  - simpl.
    destruct (fs !! (done ++ [x])) as [[c|]|] eqn:L.
    + eauto.
    + apply IH. rewrite <- app_assoc. exact F.
    + apply IH. rewrite lookup_insert_ne.
      * rewrite <- app_assoc. exact F.
      * intros E. rewrite <- app_assoc in E. apply app_inv_head in E.
        destruct before; discriminate.
Qed.

(** X7.  When the output directory or one of the directories above it is
    there as a regular file, the report writer raises at its [mkdir] and
    has written nothing: the file system and the console are as before. *)
Theorem file_in_the_way env before name after content records h :
  files h !! (before ++ [name]) = Some (File content) ->
  exists e h',
    save_results env (before ++ name :: after) records h = (Raise e, h')
    /\ files h' = files h /\ console h' = console h.
Proof.
  intros F.
  destruct (mkdir_from_blocked (files h) [] before name after content F)
    as [e E].
  unfold save_results, timestamp_now, mkdir, fs_operation, operation, bind.
  destruct (fault env (clock h)) as [e'|].
  - exists e', (tick h). repeat split.
  - change (files (tick h)) with (files h). rewrite E.
    exists e, (tick h). repeat split.
Qed.

Lemma file_in_the_way_witness :
  exists e h',
    save_results Scenario.quiet ["output"] [Scenario.users_record]
                 Cases.output_is_a_file = (Raise e, h')
    /\ files h' !! ["output"] = Some (File "notes").
Proof.
  assert (L : files Cases.output_is_a_file !! ([] ++ ["output"])
              = Some (File "notes")) by (vm_compute; reflexivity).
  destruct (file_in_the_way Scenario.quiet [] "output" [] "notes"
              [Scenario.users_record] Cases.output_is_a_file L)
    as (e & h' & E & F & _).
  exists e, h'. split; [exact E|]. rewrite F. exact L.
Defined.

(** ** The report writer when nothing fails *)

Section Success.

Variable env : Env.
Hypothesis no_fault : forall t, fault env t = None.

Lemma writes_write f text : Effects.writes f (write env f text) text.
Proof.
  intros h content F.
  unfold write, fs_operation, operation. rewrite no_fault.
  change (files (tick h)) with (files h).
  unfold Fs.extend. rewrite F. eexists. repeat split.
Qed.

Lemma writes_ret f : Effects.writes f (ret tt) "".
Proof.
  intros h content F. exists h. split; [reflexivity|].
  split; [|reflexivity].
  rewrite append_nil_r. symmetry. now apply insert_id.
Qed.

Lemma writes_bind f m1 m2 t1 t2 :
  Effects.writes f m1 t1 -> Effects.writes f m2 t2 ->
  Effects.writes f (run! m1 in m2) (t1 +:+ t2).
Proof.
  intros H1 H2 h content F.
  destruct (H1 h content F) as (h1 & E1 & F1 & C1).
  assert (L1 : files h1 !! f = Some (File (content +:+ t1)))
    by (rewrite F1; apply lookup_insert_eq).
  destruct (H2 h1 _ L1) as (h2 & E2 & F2 & C2).
  exists h2. split; [now rewrite (bind_ok _ _ _ _ _ E1)|].
  split; [|congruence].
  rewrite F2, F1, insert_insert_eq, append_assoc. reflexivity.
Qed.

Lemma writes_for_each {A} f (l : list A) body (g : A -> string) :
  (forall x, Effects.writes f (body x) (g x)) ->
  Effects.writes f (for_each l body) (cat (map g l)).
Proof.
  intros H. induction l as [|x l IH].
  - apply writes_ret.
  - change (Effects.writes f (run! body x in for_each l body)
                           (g x +:+ cat (map g l))).
    apply writes_bind; [apply H|exact IH].
Qed.

Lemma writes_if_nonempty {A} f (l : list A) m text :
  Effects.writes f m text ->
  Effects.writes f (if_nonempty l m)
                 (match l with [] => "" | _ :: _ => text end).
Proof. intros H. destruct l; [apply writes_ret|exact H]. Qed.

Lemma markdown_section_unfolded item :
  Spec.markdown_section item =
    ("## " +:+ server item +:+ " · " +:+ database item +:+ " · "
       +:+ schema item +:+ "." +:+ table item +:+ nl +:+ nl)
    +:+ ("- PostgreSQL Version: " +:+ postgres_version item +:+ nl)
    +:+ ("- Extensions: " +:+ join ", " (extensions item) +:+ nl)
    +:+ ("- Rowcount: " +:+ str_int (rowcount item) +:+ nl)
    +:+ Spec.primary_key_line item
    +:+ (nl +:+ "### Columns" +:+ nl +:+ nl)
    +:+ ("| Name | Type | Nullable | Default |" +:+ nl)
    +:+ ("|------|------|----------|---------|" +:+ nl)
    +:+ cat (map Spec.column_row (columns item))
    +:+ Spec.indexes_section item
    +:+ Spec.foreign_keys_section item
    +:+ Spec.separator.
Proof.
  unfold Spec.markdown_section, Spec.heading, Spec.columns_table,
    Spec.columns_header.
  now rewrite !append_assoc.
Qed.

Lemma writes_write_markdown f item :
  Effects.writes f (write_markdown env f item) (Spec.markdown_section item).
Proof.
  rewrite markdown_section_unfolded. unfold write_markdown.
  repeat (apply writes_bind; [try apply writes_write|]).
  - apply (writes_if_nonempty f (primary_keys item)), writes_write.
  - apply writes_for_each. intros col.
    unfold Spec.column_row. rewrite <- default_or_empty_eq.
    apply writes_write.
  - apply (writes_if_nonempty f (indexes item)).
    apply writes_bind; [apply writes_write|].
    apply writes_for_each. intros idx. apply writes_write.
  - apply (writes_if_nonempty f (foreign_keys item)).
    apply writes_bind; [apply writes_write|].
    apply writes_for_each. intros fk. apply writes_write.
  - apply writes_write.
Qed.

Lemma with_open_w_writes p body text h :
  Fs.is_dir (files h) (removelast p) = true ->
  files h !! p <> Some Dir ->
  Effects.writes p (body p) text ->
  exists h',
    with_open_w env p body h = (Ok tt, h')
    /\ files h' = <[p := File text]> (files h)
    /\ console h' = console h.
Proof.
  intros Hd Hp Hb.
  unfold with_open_w, fs_operation, operation. rewrite no_fault.
  change (files (tick h)) with (files h).
  assert (C : Fs.create (files h) p = Ok (<[p := File ""]> (files h))).
  { unfold Fs.create. rewrite Hd.
    destruct (files h !! p) as [[c|]|]; [reflexivity|contradiction|reflexivity]. }
  rewrite C.
  destruct (Hb (set_files (<[p := File ""]> (files h)) (tick h)) "")
    as (h2 & E2 & F2 & C2); [apply lookup_insert_eq|].
  rewrite E2, no_fault. eexists. split; [reflexivity|].
  split; [|exact C2].
  change (files (tick h2)) with (files h2).
  rewrite F2. simpl. now rewrite insert_insert_eq.
Qed.

Lemma mkdir_from_is_dir fs done todo fs' :
  Fs.mkdir_from fs done todo = Ok fs' ->
  Fs.is_dir fs done = true ->
  Fs.is_dir fs' (done ++ todo) = true.
Proof.
  revert fs done. induction todo as [|name todo IH]; intros fs done E Hd.
  - inversion E; subst. now rewrite app_nil_r.
  - simpl in E.
    replace (done ++ name :: todo) with ((done ++ [name]) ++ todo)
      by now rewrite <- app_assoc.
    assert (Hne : done ++ [name] <> []) by (destruct done; discriminate).
    destruct (fs !! (done ++ [name])) as [[c|]|] eqn:L; [discriminate|..].
    + apply (IH _ _ E). unfold Fs.is_dir. rewrite L.
      destruct (done ++ [name]); [contradiction|reflexivity].
    + apply (IH _ _ E). unfold Fs.is_dir. rewrite lookup_insert_eq.
      destruct (done ++ [name]); [contradiction|reflexivity].
Qed.

Lemma is_dir_insert_below fs dir name node :
  Fs.is_dir (<[dir ++ [name] := node]> fs) dir = Fs.is_dir fs dir.
Proof.
  unfold Fs.is_dir. destruct dir as [|x dir]; [reflexivity|].
  rewrite lookup_insert_ne; [reflexivity|].
  intros E. apply (f_equal (@length string)) in E.
  rewrite length_app in E. simpl in E. lia.
Qed.

End Success.

(** X8.  When no operation fails, the output directory can be made,
    neither output path is a directory and the line that names the
    directory renders as markup, the report writer returns; all it has
    done to the file system is to make the directory and to put the JSONL
    text and the Markdown text of the collection in the two files, and it
    has printed that one line.  When the line does not render, as for a
    directory named with a closing tag, the report writer raises the error
    of the console after it has written the two files. *)
Theorem report_writer_succeeds env output_dir records h fs1 :
  (forall t, fault env t = None) ->
  Fs.mkdir_from (files h) [] output_dir = Ok fs1 ->
  fs1 !! (output_dir ++ ["postgres_inventory.jsonl"]) <> Some Dir ->
  fs1 !! (output_dir ++ ["postgres_inventory.md"]) <> Some Dir ->
  exists h',
    files h' =
      <[output_dir ++ ["postgres_inventory.md"]
          := File (Spec.markdown_text records)]>
        (<[output_dir ++ ["postgres_inventory.jsonl"]
             := File (Spec.jsonl_text records)]> fs1)
    /\ match markup_error env ("[green]✅ Results saved in "
                               +:+ str_path output_dir +:+ "[/green]") with
       | None =>
           save_results env output_dir records h = (Ok tt, h')
           /\ console h' =
              console h ++ ["[green]✅ Results saved in "
                            +:+ str_path output_dir +:+ "[/green]"]
       | Some e =>
           save_results env output_dir records h = (Raise e, h')
           /\ console h' = console h
       end.
Proof.
  intros Hf Hm Hj Hd.
  pose proof (mkdir_from_is_dir _ _ _ _ Hm eq_refl) as Hdir.
  simpl in Hdir.
  set (h1 := set_files fs1 (tick h)).
  assert (E1 : mkdir env output_dir h = (Ok tt, h1)).
  { unfold mkdir, fs_operation, operation. rewrite Hf.
    change (files (tick h)) with (files h). now rewrite Hm. }
  destruct (with_open_w_writes env Hf
              (output_dir ++ ["postgres_inventory.jsonl"])
              (fun f => for_each records
                          (fun item => write env f (model_dump_json item +:+ nl)))
              (Spec.jsonl_text records) h1)
    as (h2 & E2 & F2 & C2).
  { now rewrite removelast_last. }
  { exact Hj. }
  { apply writes_for_each. intros item. now apply writes_write. }
  destruct (with_open_w_writes env Hf
              (output_dir ++ ["postgres_inventory.md"])
              (fun f => for_each records (write_markdown env f))
              (Spec.markdown_text records) h2)
    as (h3 & E3 & F3 & C3).
  { rewrite removelast_last, F2. now rewrite is_dir_insert_below. }
  { rewrite F2, lookup_insert_ne; [exact Hd|].
    intros E. apply app_inv_head in E. discriminate. }
  { apply writes_for_each. intros item.
    now apply writes_write_markdown. }
  assert (S : save_results env output_dir records h
              = console_print env ("[green]✅ Results saved in "
                                   +:+ str_path output_dir +:+ "[/green]")
                              h3).
  { unfold save_results.
    rewrite (bind_ok _ _ _ _ _ (eq_refl : timestamp_now env h = (Ok _, h))).
    now rewrite (bind_ok _ _ _ _ _ E1), (bind_ok _ _ _ _ _ E2),
      (bind_ok _ _ _ _ _ E3). }
  rewrite S. unfold console_print, operation. rewrite Hf.
  destruct (markup_error env _) as [e|].
  - exists (tick h3). split; [simpl; now rewrite F3, F2|].
    split; [reflexivity|]. simpl. now rewrite C3, C2.
  - eexists. split; [|split; [reflexivity|]].
    + simpl. now rewrite F3, F2.
    + simpl. now rewrite C3, C2.
Qed.

(** From an empty directory. *)
Lemma report_writer_succeeds_witness :
  exists h',
    save_results Scenario.quiet ["output"] [Scenario.users_record]
                 Scenario.start = (Ok tt, h')
    /\ files h' !! ["output"] = Some Dir
    /\ console h' = ["[green]✅ Results saved in output[/green]"].
Proof.
  destruct (report_writer_succeeds Scenario.quiet ["output"]
              [Scenario.users_record] Scenario.start
              {[ ["output"] := Dir ]})
    as (h' & F & M).
  - reflexivity.
  - vm_compute. reflexivity.
  - vm_compute. discriminate.
  - vm_compute. discriminate.
  - cbv beta iota delta [Scenario.quiet Scenario.still markup_error] in M.
    destruct M as [E C].
    exists h'. split; [exact E|]. split; [|exact C].
    rewrite F. vm_compute. reflexivity.
Defined.

(** ** The run as a whole *)

(** X10.  A server that refuses the administrative connection does not
    keep the servers after it from being scanned: the sequential run goes
    on with them as if the server had not been in the list, but for the
    entry that the refusal left in the log. *)
Theorem refused_server_is_skipped env s rest output_dir h e :
  fault env (clock h) = None ->
  accepts env s "postgres" (clock h) = Some e ->
  generate_doc env (s :: rest) output_dir false h
  = generate_doc env rest output_dir false
      (add_logged ("Error scanning server " +:+ host s +:+ ":"
                   +:+ str_int (port s) +:+ " → " +:+ exc_str e)
                  (tick h)).
Proof.
  intros Hf Ha.
  pose proof (refused_server_contributes_nothing env s h e Hf Ha) as E.
  unfold generate_doc, collect. cbn [scan_in_turn]. unfold bind.
  rewrite E. reflexivity.
Qed.

(** The server [down] before the server of the scenarios: the two records
    of the second reach the JSONL file. *)
Lemma refused_server_is_skipped_witness :
  exists h' text,
    generate_doc Cases.one_down [Cases.down_server; Scenario.the_server]
                 ["output"] false Scenario.start = (Ok tt, h')
    /\ files h' !! ["output"; "postgres_inventory.jsonl"] = Some (File text)
    /\ length (Lines.lines text) = 2%nat
    /\ length (logged h') = 1%nat.
Proof.
  do 2 eexists.
  rewrite (refused_server_is_skipped Cases.one_down Cases.down_server
             [Scenario.the_server] ["output"] Scenario.start
             Cases.unreachable eq_refl eq_refl).
  split; [vm_compute; reflexivity|].
  split; [vm_compute; reflexivity|].
  split; vm_compute; reflexivity.
Defined.

(** ** The primary key *)

Lemma primary_key_columns_by_name schema table d :
  Query.primary_key_columns schema table d
  = Ok (flat_map (fun name => Effects.columns_of_constraint name d)
                 (Effects.primary_key_constraints schema table d)).
Proof.
  unfold Query.primary_key_columns, Effects.primary_key_constraints,
    Effects.columns_of_constraint.
  f_equal. induction (table_constraints d) as [|tc l IH]; [reflexivity|].
  simpl.
  destruct (String.eqb (tc_table_schema tc) schema
            && String.eqb (tc_table_name tc) table
            && String.eqb (tc_constraint_type tc) "PRIMARY KEY");
    simpl; now rewrite IH.
Qed.

(** X11.  The primary key of a table is read by joining its primary-key
    constraints to [key_column_usage] on the name of the constraint alone:
    the columns are those of every row that bears the name of one of the
    constraints, and two tables whose constraints have the same names get
    the same columns.  So there is a catalog, with a constraint
    [users_pkey] on [public.users(id)] and another on [audit.users(uid)],
    for which the record of each table lists both [id] and [uid]. *)
Theorem primary_key_matches_constraint_name_only :
  (forall schema table d,
      Query.primary_key_columns schema table d
      = Ok (flat_map (fun name => Effects.columns_of_constraint name d)
                     (Effects.primary_key_constraints schema table d)))
  /\ (forall s1 t1 s2 t2 d,
         Effects.primary_key_constraints s1 t1 d
         = Effects.primary_key_constraints s2 t2 d ->
         Query.primary_key_columns s1 t1 d
         = Query.primary_key_columns s2 t2 d)
  /\ (exists records h',
         connect_and_fetch Cases.two_keys Scenario.the_server Scenario.start
         = (Ok records, h')
         /\ map Effects.key records
            = [("public", "users"); ("audit", "users")]
         /\ map (fun r => map column_name (columns r)) records
            = [["id"]; ["uid"]]
         /\ map primary_keys records = [["id"; "uid"]; ["id"; "uid"]]).
Proof.
  split; [exact primary_key_columns_by_name|]. split.
  - intros s1 t1 s2 t2 d E.
    now rewrite !primary_key_columns_by_name, E.
  - do 2 eexists. split; [vm_compute; reflexivity|].
    split; [reflexivity|]. split; reflexivity.
Qed.

(** ** What a record is made of *)

(** X12.  A record is made by five statements sent one after the other on
    the connection of its database, each seeing the catalog as it is at
    its moment: the row count is the first row of the estimate query for
    the bare name of the table; the columns, the primary key and the
    indexes are the whole results of their queries for the schema and the
    name of the table; the foreign keys are the rows of their query for
    the text [schema.table], each written [conname: definition]. *)
Theorem record_is_what_the_queries_return
        env srv db cur v x sch tbl st st' :
  table_body env srv db cur v x (sch, tbl) st = (Ok tt, st') ->
  exists rec more fk_rows,
    metadata st' = metadata st ++ [rec]
    /\ clock (proc st') = (clock (proc st) + 5)%nat
    /\ Effects.key rec = (sch, tbl)
    /\ Query.estimate tbl
         (catalog env (conn_server cur) (conn_dbname cur)
                  (clock (proc st)))
       = Ok (rowcount rec :: more)
    /\ Query.column_rows sch tbl
         (catalog env (conn_server cur) (conn_dbname cur)
                  (clock (proc st) + 1)%nat)
       = Ok (columns rec)
    /\ Query.primary_key_columns sch tbl
         (catalog env (conn_server cur) (conn_dbname cur)
                  (clock (proc st) + 2)%nat)
       = Ok (primary_keys rec)
    /\ Query.indexdefs sch tbl
         (catalog env (conn_server cur) (conn_dbname cur)
                  (clock (proc st) + 3)%nat)
       = Ok (indexes rec)
    /\ Query.foreign_key_rows (sch +:+ "." +:+ tbl)
         (catalog env (conn_server cur) (conn_dbname cur)
                  (clock (proc st) + 4)%nat)
       = Ok fk_rows
    /\ foreign_keys rec = map (fun r => fst r +:+ ": " +:+ snd r) fk_rows.
Proof.
  unfold table_body. intros E.
  apply bind_inv_ok in E as (rows & s1 & E1 & E).
  apply framed_execute_inv in E1 as (M1 & P1 & Q1).
  specialize (Q1 rows eq_refl).
  apply bind_inv_ok in E as (n & s2 & E2 & E).
  apply subscript_inv in E2 as [-> R2].
  apply bind_inv_ok in E as (cols & s3 & E3 & E).
  apply framed_execute_inv in E3 as (M3 & P3 & Q3).
  specialize (Q3 cols eq_refl).
  apply bind_inv_ok in E as (pks & s4 & E4 & E).
  apply framed_execute_inv in E4 as (M4 & P4 & Q4).
  specialize (Q4 pks eq_refl).
  apply bind_inv_ok in E as (idx & s5 & E5 & E).
  apply framed_execute_inv in E5 as (M5 & P5 & Q5).
  specialize (Q5 idx eq_refl).
  apply bind_inv_ok in E as (fks & s6 & E6 & E).
  apply framed_execute_inv in E6 as (M6 & P6 & Q6).
  specialize (Q6 fks eq_refl).
  unfold append in E. inversion E; subst st'; clear E.
  destruct rows as [|n' more]; [discriminate|].
  simpl in R2. inversion R2; subst n'.
  rewrite P1 in Q3. rewrite P3, P1 in Q4. rewrite P4, P3, P1 in Q5.
  rewrite P5, P4, P3, P1 in Q6. simpl in Q1, Q3, Q4, Q5, Q6.
  replace (clock (proc st) + 1)%nat with (S (clock (proc st))) by lia.
  replace (clock (proc st) + 2)%nat with (S (S (clock (proc st)))) by lia.
  replace (clock (proc st) + 3)%nat
    with (S (S (S (clock (proc st))))) by lia.
  replace (clock (proc st) + 4)%nat
    with (S (S (S (S (clock (proc st)))))) by lia.
  eexists. exists more, fks. simpl.
  split; [now rewrite M6, M5, M4, M3, M1|].
  split; [rewrite P6, P5, P4, P3, P1; simpl; lia|].
  split; [reflexivity|].
  split; [exact Q1|]. split; [exact Q3|]. split; [exact Q4|].
  split; [exact Q5|]. split; [exact Q6|reflexivity].
Qed.

(** The record of [public.users] in the scenario of the one database. *)
Lemma record_is_what_the_queries_return_witness :
  exists db_conn st st' rec,
    table_body (Scenario.one_database Scenario.only_mydb)
               Scenario.the_server "mydb" db_conn "PostgreSQL 15.2"
               ["pgcrypto"] ("public", "users") st = (Ok tt, st')
    /\ metadata st' = metadata st ++ [rec]
    /\ rowcount rec = 42
    /\ primary_keys rec = ["id"].
Proof.
  exists {| conn_id := 1; conn_server := Scenario.the_server;
            conn_dbname := "mydb" |}, (new_frame Scenario.start).
  eassert (E : table_body (Scenario.one_database Scenario.only_mydb)
                 Scenario.the_server "mydb"
                 {| conn_id := 1; conn_server := Scenario.the_server;
                    conn_dbname := "mydb" |}
                 "PostgreSQL 15.2" ["pgcrypto"] ("public", "users")
                 (new_frame Scenario.start) = (Ok tt, _))
    by (vm_compute; reflexivity).
  destruct (record_is_what_the_queries_return _ _ _ _ _ _ _ _ _ _ E)
    as (rec & more & fk_rows & M & _).
  eexists. exists rec. split; [exact E|]. split; [exact M|].
  simpl in M. inversion M. split; reflexivity.
Defined.
